(** * LyricGenerator: shallow embedding of [src/lyric_generator.py]

    Covered: [LrcParser.parse], [FrameRenderer.get_current_line_index],
    [FrameRenderer.draw_text_with_effects], [FrameRenderer.render] and
    [ExportThread.run] / [ExportThread.stop].

    Modelling conventions.
    - Python floats are modelled as exact rationals [Q]; Python ints as [Z].
      Where [int()] truncates the result of a float operation, the result
      is first rounded to the nearest binary64 by [fl], as Python does.
    - Python [str] is modelled as [String.string]: its characters are the
      code points 0 .. 255 of the decoded text.
    - Exceptions are the [Exc] branch of the small error monad [result].
    - Pillow (text rasterisation, resampling, Gaussian blur, alpha blending)
      is an external collaborator: its operations are the fields of the
      record [Gfx] and every definition that draws takes one as argument.
      Images keep their size in the record [image]; drawing changes only the
      pixel function, as [ImageDraw] draws in place. *)

From Stdlib Require Import ZArith QArith Qround Qminmax Qpower Qabs String Ascii
  List Bool Sorted Permutation Lia Lqa.
Import ListNotations.

Open Scope Z_scope.

(* ------------------------------------------------------------------ *)
(** ** Error monad: Python exceptions *)

Inductive result (A : Type) : Type :=
| Ok : A -> result A
| Exc : string -> result A.
Arguments Ok {A} _.
Arguments Exc {A} _.

Definition bind {A B} (m : result A) (k : A -> result B) : result B :=
  match m with
  | Ok a => k a
  | Exc e => Exc e
  end.

Notation "x <- m ;; k" := (bind m (fun x => k))
  (at level 61, m at next level, right associativity).

(* ------------------------------------------------------------------ *)
(** ** Python helpers *)

(** [int(q)] on a float: truncation toward zero. *)
Definition py_int (q : Q) : Z :=
  if Qle_bool 0 q then Qfloor q else - Qfloor (- q).

(** [max(a, b)]: keeps [a] unless [b > a]. *)
Definition py_max (a b : Q) : Q := if Qlt_le_dec a b then b else a.

(** [abs] on an int. *)
Definition py_abs (z : Z) : Z := Z.abs z.

(** [2 ^ e] as a rational. *)
Definition p2 (e : Z) : Q := ((2 # 1) ^ e)%Q.

(** [floor(log2 x)] for [x > 0]: the difference of the [Z.log2] of the
    numerator and of the denominator, corrected by one. *)
Definition qlog2 (x : Q) : Z :=
  let k0 := Z.log2 (Qnum x) - Z.log2 (Zpos (Qden x)) in
  if Qle_bool (p2 k0) x then k0 else k0 - 1.

(** Rounding to an integer, ties to even. *)
Definition round_ne (z : Q) : Z :=
  let f := Qfloor z in
  match ((z - inject_Z f) ?= (1 # 2))%Q with
  | Lt => f
  | Gt => f + 1
  | Eq => if Z.even f then f else f + 1
  end.

(** Exponent of the unit in the last place of the binary64 numbers
    around [x]: 53-bit significands, subnormals below [2 ^ -1022]. *)
Definition fexp (x : Q) : Z := Z.max (qlog2 (Qabs x) - 52) (-1074).

(** The value of a Python float operation: the exact result rounded to
    the nearest binary64, ties to even (in the finite range). *)
Definition fl (x : Q) : Q :=
  if Qeq_bool x 0 then 0%Q
  else (inject_Z (round_ne (x / p2 (fexp x))) * p2 (fexp x))%Q.

(** [range(a, b)] on ints. *)
Definition zrange (a b : Z) : list Z :=
  map (fun k => a + Z.of_nat k) (seq 0 (Z.to_nat (b - a))).

(** [str.isspace] on one character of the range 0 .. 255: tab to
    carriage return, the four separators 0x1c .. 0x1f, space, NEL (0x85)
    and no-break space (0xa0). *)
Definition is_space (c : ascii) : bool :=
  let n := nat_of_ascii c in
  (((9 <=? n) && (n <=? 13)) || ((28 <=? n) && (n <=? 32))
   || (n =? 133) || (n =? 160))%nat.

Fixpoint lstrip (s : string) : string :=
  match s with
  | EmptyString => EmptyString
  | String c t => if is_space c then lstrip t else s
  end.

Fixpoint rev_str (s : string) (acc : string) : string :=
  match s with
  | EmptyString => acc
  | String c t => rev_str t (String c acc)
  end.

(** [str.strip()] *)
Definition strip (s : string) : string :=
  rev_str (lstrip (rev_str (lstrip s) EmptyString)) EmptyString.

(** [\d] and [int()] of one digit. *)
Definition is_digit (c : ascii) : bool :=
  let n := nat_of_ascii c in ((48 <=? n) && (n <=? 57))%nat.

Definition digit_val (c : ascii) : Z := Z.of_nat (nat_of_ascii c) - 48.

(* ------------------------------------------------------------------ *)
(** ** [LrcParser.parse] *)

(** A match of [time_pattern = \[(\d{2}):(\d{2})\.(\d{2,3})\]]:
    the three groups and the text after the match. *)
Record tag_match := {
  g_mm : string;
  g_ss : string;
  g_ms : string;
  after : string
}.

Definition two (a b : ascii) : string := String a (String b EmptyString).
Definition three (a b c : ascii) : string :=
  String a (String b (String c EmptyString)).

(** The pattern anchored at the head of [s] ([re.match] semantics; the
    greedy [\d{2,3}] tries three digits, then backtracks to two). *)
Definition match_tag (s : string) : option tag_match :=
  match s with
  | String o (String m1 (String m2 (String col (String s1 (String s2
      (String dot (String f1 (String f2 rest)))))))) =>
      if Ascii.eqb o "["%char && is_digit m1 && is_digit m2
         && Ascii.eqb col ":"%char && is_digit s1 && is_digit s2
         && Ascii.eqb dot "."%char && is_digit f1 && is_digit f2
      then
        let three_digits :=
          match rest with
          | String f3 (String c rest') =>
              if is_digit f3 && Ascii.eqb c "]"%char
              then Some {| g_mm := two m1 m2; g_ss := two s1 s2;
                           g_ms := three f1 f2 f3; after := rest' |}
              else None
          | _ => None
          end in
        match three_digits with
        | Some r => Some r
        | None =>
            match rest with
            | String c rest' =>
                if Ascii.eqb c "]"%char
                then Some {| g_mm := two m1 m2; g_ss := two s1 s2;
                             g_ms := two f1 f2; after := rest' |}
                else None
            | _ => None
            end
        end
      else None
  | _ => None
  end.

(** [time_pattern.search(line)]: leftmost match. *)
Fixpoint search (s : string) : option tag_match :=
  match match_tag s with
  | Some r => Some r
  | None =>
      match s with
      | EmptyString => None
      | String _ t => search t
      end
  end.

(** [time_pattern.sub('', line)]: every non-overlapping match removed,
    scanning left to right.  [fuel] is the length of the string, and each
    step consumes at least one character. *)
Fixpoint sub_fuel (fuel : nat) (s : string) : string :=
  match fuel with
  | O => s
  | S fuel' =>
      match match_tag s with
      | Some r => sub_fuel fuel' (after r)
      | None =>
          match s with
          | EmptyString => EmptyString
          | String c t => String c (sub_fuel fuel' t)
          end
      end
  end.

Definition sub_tags (s : string) : string := sub_fuel (String.length s) s.

(** [int()] of a string of digits. *)
Fixpoint digits_value_aux (s : string) (acc : Z) : Z :=
  match s with
  | EmptyString => acc
  | String c t => digits_value_aux t (10 * acc + digit_val c)
  end.

Definition py_int_str (s : string) : Z := digits_value_aux s 0.

(** A parsed lyric: the dict [{'time': total_seconds, 'text': text}]. *)
Record lyric := { time : Q; text : string }.

(** The timestamp computed from a match. *)
Definition match_seconds (m : tag_match) : Q :=
  let ms_val := py_int_str (g_ms m) in
  let ms_val := if (String.length (g_ms m) =? 2)%nat then ms_val * 10 else ms_val in
  inject_Z (py_int_str (g_mm m) * 60 + py_int_str (g_ss m)) + (ms_val # 1000).

(** The body of the [for line in lines] loop: [None] when nothing is
    appended. *)
Definition parse_line (raw : string) : option lyric :=
  let line := strip raw in
  match search line with
  | Some m =>
      let total_seconds := match_seconds m in
      let txt := strip (sub_tags line) in
      match txt with
      | EmptyString => None
      | _ => Some {| time := total_seconds; text := txt |}
      end
  | None => None
  end.

Fixpoint collect (lines : list string) : list lyric :=
  match lines with
  | [] => []
  | l :: ls =>
      match parse_line l with
      | Some e => e :: collect ls
      | None => collect ls
      end
  end.

(** [lyrics.sort(key=lambda x: x['time'])].  Python's sort is stable, and a
    stable sort has one result; it is computed here by insertion: an element
    goes after every element whose key is not greater. *)
Fixpoint insert_by_time (x : lyric) (l : list lyric) : list lyric :=
  match l with
  | [] => [x]
  | h :: t => if Qlt_le_dec (time x) (time h) then x :: h :: t
              else h :: insert_by_time x t
  end.

Definition sort_by_time (l : list lyric) : list lyric :=
  fold_left (fun acc x => insert_by_time x acc) l [].

(** Universal newlines of [open(..., 'r')]: ["\r\n"] and a lone ["\r"]
    are read as ["\n"]. *)
Fixpoint translate_newlines (s : string) : string :=
  match s with
  | EmptyString => EmptyString
  | String c t =>
      if Ascii.eqb c "013"%char then
        match t with
        | String d t' =>
            if Ascii.eqb d "010"%char then String "010"%char (translate_newlines t')
            else String "010"%char (translate_newlines t)
        | EmptyString => String "010"%char EmptyString
        end
      else String c (translate_newlines t)
  end.

(** [f.readlines()] on the translated text: lines keep their terminating
    newline. *)
Fixpoint readlines_aux (s : string) (cur : string) : list string :=
  match s with
  | EmptyString => match cur with EmptyString => [] | _ => [rev_str cur EmptyString] end
  | String c t =>
      if Ascii.eqb c "010"%char
      then rev_str (String c cur) EmptyString :: readlines_aux t EmptyString
      else readlines_aux t (String c cur)
  end.

Definition readlines (s : string) : list string :=
  readlines_aux (translate_newlines s) EmptyString.

(** Parsing once the file is open. *)
Definition parse_content (content : string) : list lyric :=
  sort_by_time (collect (readlines content)).

(** The file system seen by [os.path.exists] and [open]. *)
Inductive fentry :=
| FFile (content : string)   (* a regular file; decoded with errors='ignore' *)
| FDir                       (* a directory *)
| FUnreadable.               (* a file without read permission *)

Definition filesystem := string -> option fentry.

Definition path_exists (fs : filesystem) (p : string) : bool :=
  match fs p with Some _ => true | None => false end.

Definition open_read (fs : filesystem) (p : string) : result string :=
  match fs p with
  | Some (FFile c) => Ok c
  | Some FDir => Exc "IsADirectoryError"
  | Some FUnreadable => Exc "PermissionError"
  | None => Exc "FileNotFoundError"
  end.

(** [LrcParser.parse(file_path)] *)
Definition parse (fs : filesystem) (file_path : string) : result (list lyric) :=
  match file_path with
  | EmptyString => Ok []
  | _ =>
      if negb (path_exists fs file_path) then Ok []
      else
        content <- open_read fs file_path ;;
        Ok (parse_content content)
  end.

(* ------------------------------------------------------------------ *)
(** ** [FrameRenderer.get_current_line_index] *)

Fixpoint current_index_from (lyrics : list lyric) (t : Q) (i idx : Z) : Z :=
  match lyrics with
  | [] => idx
  | line :: rest =>
      if Qle_bool (time line) t then current_index_from rest t (i + 1) i
      else idx
  end.

Definition get_current_line_index (lyrics : list lyric) (current_time : Q) : Z :=
  current_index_from lyrics current_time 0 (-1).

(* ------------------------------------------------------------------ *)
(** ** Images and the Pillow operations *)

Definition rgba : Type := (Z * Z * Z * Z)%type.
Definition rgb : Type := (Z * Z * Z)%type.
Definition transparent : rgba := (0, 0, 0, 0).

Definition with_alpha (c : rgb) (a : Z) : rgba :=
  let '(r, g, b) := c in (r, g, b, a).

(** An RGBA image of [iw] x [ih] pixels; [px x y] is the pixel in column
    [x], row [y]. *)
Record image := mkImage { iw : Z; ih : Z; px : Z -> Z -> rgba }.

(** [Image.new('RGBA', (w, h), c)] *)
Definition image_new (w h : Z) (c : rgba) : result image :=
  if (w <? 0) || (h <? 0) then Exc "ValueError: width and height must be >= 0"
  else Ok (mkImage w h (fun _ _ => c)).

Definition rgba_bytes (c : rgba) : list Z :=
  let '(r, g, b, a) := c in [r; g; b; a].

(** [img.tobytes()]: row-major, four bytes per pixel. *)
Definition tobytes (im : image) : list Z :=
  flat_map (fun y => flat_map (fun x => rgba_bytes (px im x y)) (zrange 0 (iw im)))
           (zrange 0 (ih im)).

(** The Pillow primitives used by the renderer. *)
Record Gfx := {
  font : Type;
  (** [ImageFont.truetype(path, size)]; [None] when it raises *)
  truetype : string -> Z -> option font;
  (** [ImageFont.load_default()] *)
  load_default : font;
  (** [draw.textbbox((0, 0), text, font)] as left, top, width, height
      (Pillow's boxes have right >= left and bottom >= top) *)
  textbbox : font -> string -> Z * Z * N * N;
  (** [draw.textlength(text, font)] *)
  textlength : font -> string -> Q;
  (** [ImageDraw.text(xy, text, font, fill, stroke_width, stroke_fill)]
      on an image of the given size; returns the new pixels *)
  draw_text : image -> Q * Q -> font -> string -> rgba -> Z -> option rgba ->
              (Z -> Z -> rgba);
  (** [im.resize((w, h), LANCZOS)] *)
  resize_px : image -> Z -> Z -> (Z -> Z -> rgba);
  (** [im.filter(GaussianBlur(radius))] *)
  blur_px : image -> Q -> (Z -> Z -> rgba);
  (** per-pixel result of [paste] with the layer as its own mask:
      destination pixel, source pixel *)
  blend : rgba -> rgba -> rgba
}.

Section Renderer.

Variable G : Gfx.

Definition draw_text_on (im : image) (xy : Q * Q) (f : font G) (s : string)
  (fill : rgba) (sw : Z) (sfill : option rgba) : image :=
  mkImage (iw im) (ih im) (draw_text G im xy f s fill sw sfill).

Definition resize (im : image) (w h : Z) : image :=
  mkImage w h (resize_px G im w h).

Definition gaussian_blur (im : image) (r : Q) : image :=
  mkImage (iw im) (ih im) (blur_px G im r).

(** [img.paste(layer, (dx, dy), layer)] *)
Definition paste (im layer : image) (dx dy : Z) : image :=
  mkImage (iw im) (ih im)
    (fun x y =>
       if (dx <=? x) && (x <? dx + iw layer) && (dy <=? y) && (y <? dy + ih layer)
       then blend G (px im x y) (px layer (x - dx) (y - dy))
       else px im x y).

End Renderer.

(* ------------------------------------------------------------------ *)
(** ** Parameters: the dict [self.p] *)

Record shadow_cfg := { sh_enabled : bool; sh_color : rgb; sh_x : Z; sh_y : Z }.
Record stroke_cfg := { st_enabled : bool; st_color : rgb; st_width : Z }.

(** [width], [height], [duration], [font_size], [visible_lines],
    [line_spacing] come from [QSpinBox]es (ints); the decay coefficients
    from [QDoubleSpinBox]es (floats). *)
Record params := {
  width : Z;
  height : Z;
  duration : Z;
  bitrate : string;
  font_path : string;
  font_size : Z;
  font_color : rgb;
  align : string;
  visible_lines : Z;
  line_spacing : Z;
  scale_decay : Q;
  fade_decay : Q;
  blur_base : Q;
  blur_inc : Q;
  shadow : shadow_cfg;
  stroke : stroke_cfg;
  meta_title : string;
  meta_artist : string;
  meta_album : string
}.

(* ------------------------------------------------------------------ *)
(** ** [FrameRenderer] *)

Section FrameRenderer.

Variable G : Gfx.

(** The three fonts loaded by [FrameRenderer.__init__]: lyric, title, info. *)
Record fonts := { lyric_font : font G; meta_title_font : font G;
                  meta_info_font : font G }.

Definition load_fonts (p : params) : fonts :=
  match truetype G (font_path p) (font_size p),
        truetype G (font_path p) (py_int (inject_Z (font_size p) * (3 # 2))),
        truetype G (font_path p) (py_int (inject_Z (font_size p) * (4 # 5))) with
  | Some f1, Some f2, Some f3 =>
      {| lyric_font := f1; meta_title_font := f2; meta_info_font := f3 |}
  | _, _, _ =>
      {| lyric_font := load_default G; meta_title_font := load_default G;
         meta_info_font := load_default G |}
  end.

(** What [draw_text_with_effects] returns: [(None, 0, 0)], a bare [None]
    (from the bare [return]), or [(txt_img, dest_x, dest_y)]. *)
Inductive dte_result :=
| DteSkip
| DteNone
| DteLayer (layer : image) (dest_x dest_y : Z).

(** [FrameRenderer.draw_text_with_effects] *)
Definition draw_text_with_effects (txt : string) (x y : Z) (f : font G)
  (color : rgb) (alpha scale blur_radius : Q) (al : string)
  (sh : shadow_cfg) (st : stroke_cfg) : dte_result :=
  if Qle_bool alpha 5 then DteSkip else
  let fill_color := with_alpha color (py_int alpha) in
  let '(_, _, bw, bh) := textbbox G f txt in
  let w := Z.of_N bw in
  let h := Z.of_N bh in
  let padding := 20 in
  let temp_w := w + padding * 2 in
  let temp_h := h + padding * 2 in
  if (temp_w <=? 0) || (temp_h <=? 0) then DteNone else
  match image_new temp_w temp_h transparent with
  | Exc _ => DteNone
  | Ok txt_img =>
  let lx := padding in
  let ly := padding in
  (* 1. shadow *)
  let txt_img :=
    if sh_enabled sh
    then let s_alpha := py_int (alpha * (3 # 5)) in
         draw_text_on G txt_img (inject_Z (lx + sh_x sh), inject_Z (ly + sh_y sh))
           f txt (with_alpha (sh_color sh) s_alpha) 0 None
    else txt_img in
  (* 2. stroke *)
  let stroke_width := if st_enabled st then st_width st else 0 in
  let stroke_fill :=
    if st_enabled st then Some (with_alpha (st_color st) (py_int alpha)) else None in
  (* 3. main text *)
  let txt_img := draw_text_on G txt_img (inject_Z lx, inject_Z ly) f txt
                   fill_color stroke_width stroke_fill in
  (* 4. scale *)
  let txt_img :=
    if negb (Qeq_bool scale 1)
    then let new_w := py_int (fl (fl (inject_Z temp_w) * scale)) in
         let new_h := py_int (fl (fl (inject_Z temp_h) * scale)) in
         if (0 <? new_w) && (0 <? new_h) then resize G txt_img new_w new_h
         else txt_img
    else txt_img in
  (* 5. blur *)
  let txt_img :=
    if Qlt_le_dec 0 blur_radius then gaussian_blur G txt_img blur_radius
    else txt_img in
  (* 6. paste position *)
  let final_w := iw txt_img in
  let final_h := ih txt_img in
  let dest_x :=
    if String.eqb al "center" then x - final_w / 2
    else if String.eqb al "right" then x - final_w
    else x in
  let dest_y := y - final_h / 2 in
  DteLayer txt_img dest_x dest_y
  end.

(** The per-line values computed in the [for idx, dist_level in render_list]
    loop of [render]. *)
Record line_draw := {
  ld_idx : Z;
  ld_dist : Z;
  ld_text : string;
  ld_scale : Q;
  ld_alpha : Q;
  ld_blur : Q;
  ld_y : Z
}.

Definition margin_top : Z := 40.

Definition header_x (p : params) : Z :=
  if String.eqb (align p) "center" then width p / 2
  else if String.eqb (align p) "left" then 50
  else width p - 50.

Definition scroll_area_top (p : params) : Z := margin_top + font_size p * 4.
Definition scroll_area_height (p : params) : Z :=
  height p - scroll_area_top p - 50.
Definition center_y (p : params) : Z :=
  scroll_area_top p + scroll_area_height p / 2.

(** [render_list]: the active line, then above and below at distance
    [1 .. visible_lines // 2 + 1]. *)
Definition render_list (curr_idx n visible_lines : Z) : list (Z * Z) :=
  (curr_idx, 0) ::
  flat_map (fun i =>
      (if curr_idx - i >=? 0 then [(curr_idx - i, - i)] else [])
      ++ (if curr_idx + i <? n then [(curr_idx + i, i)] else []))
    (zrange 1 (visible_lines / 2 + 2)).

Definition line_params (p : params) (line_text : string) (idx dist_level : Z)
  : line_draw :=
  let abs_dist := inject_Z (py_abs dist_level) in
  let scale := py_max (1 # 10) (1 - scale_decay p * abs_dist) in
  let alpha := py_max 0 (255 - fade_decay p * abs_dist * 50) in
  let alpha := if dist_level =? 0 then 255%Q else alpha in
  let blur := (blur_base p + blur_inc p * abs_dist)%Q in
  let blur := if dist_level =? 0 then 0%Q else blur in
  let y_pos := center_y p + dist_level * (font_size p + line_spacing p) in
  {| ld_idx := idx; ld_dist := dist_level; ld_text := line_text;
     ld_scale := scale; ld_alpha := alpha; ld_blur := blur; ld_y := y_pos |}.

(** The lines [render] draws, in drawing order (out-of-range indices are
    skipped by [continue]). *)
Definition render_plan (p : params) (lyrics : list lyric) (t : Q) : list line_draw :=
  let curr_idx := get_current_line_index lyrics t in
  let n := Z.of_nat (length lyrics) in
  flat_map (fun '(idx, dist_level) =>
      if (idx <? 0) || (n <=? idx) then []
      else match nth_error lyrics (Z.to_nat idx) with
           | Some l => [line_params p (text l) idx dist_level]
           | None => []
           end)
    (render_list curr_idx n (visible_lines p)).

(** One iteration of the drawing loop: draw the line, paste its layer. *)
Definition draw_line (p : params) (fs : fonts) (img : image) (ld : line_draw)
  : result image :=
  match draw_text_with_effects (ld_text ld) (header_x p) (ld_y ld)
          (lyric_font fs) (font_color p) (ld_alpha ld) (ld_scale ld)
          (ld_blur ld) (align p) (shadow p) (stroke p) with
  | DteSkip => Ok img
  | DteNone => Exc "TypeError: cannot unpack non-iterable NoneType object"
  | DteLayer layer dx dy => Ok (paste G img layer dx dy)
  end.

Fixpoint draw_lines (p : params) (fs : fonts) (img : image) (plan : list line_draw)
  : result image :=
  match plan with
  | [] => Ok img
  | ld :: rest => img' <- draw_line p fs img ld ;; draw_lines p fs img' rest
  end.

(** The header block: title and "artist - album". *)
Definition draw_header (p : params) (fs : fonts) (img : image) : image :=
  let hx := inject_Z (header_x p) in
  let title_w := textlength G (meta_title_font fs) (meta_title p) in
  let place (wdt : Q) : Q :=
    if String.eqb (align p) "center" then (hx - inject_Z (Qfloor (wdt / 2)))%Q
    else if String.eqb (align p) "left" then hx else (hx - wdt)%Q in
  let img := draw_text_on G img (place title_w, inject_Z margin_top)
               (meta_title_font fs) (meta_title p)
               (with_alpha (font_color p) 255) 0 None in
  let info_text := (meta_artist p ++ " - " ++ meta_album p)%string in
  let info_w := textlength G (meta_info_font fs) info_text in
  draw_text_on G img (place info_w, inject_Z (margin_top + font_size p * 2))
    (meta_info_font fs) info_text (with_alpha (font_color p) 200) 0 None.

(** A frame: transparent background, header, then the planned lines. *)
Definition render_from_plan (p : params) (plan : list line_draw) : result image :=
  let fs := load_fonts p in
  img <- image_new (width p) (height p) transparent ;;
  draw_lines p fs (draw_header p fs img) plan.

(** [FrameRenderer(p, lyrics).render(current_time)] *)
Definition render (p : params) (lyrics : list lyric) (current_time : Q)
  : result image :=
  render_from_plan p (render_plan p lyrics current_time).

End FrameRenderer.

(* ------------------------------------------------------------------ *)
(** ** [ExportThread] *)

(** What the worker thread emits or does, in order: signals, pipe writes,
    and the two calls on the subprocess at the end. *)
Inductive event :=
| EvProgress (pct : Z)          (* progress_signal.emit *)
| EvWrite (frame : list Z)      (* process.stdin.write *)
| EvClose                       (* process.stdin.close() *)
| EvWait                        (* process.wait() *)
| EvFinished (msg : string)     (* finished_signal.emit *)
| EvError (msg : string).       (* error_signal.emit *)

(** The world around the thread: whether [subprocess.Popen] succeeds,
    the value of [self.is_running] when iteration [i] checks it ([stop()]
    sets it to [False] from the UI thread), whether the write of frame [i]
    to the pipe succeeds, and the encoder's exit code. *)
Record export_env := {
  launch_ok : bool;
  is_running : nat -> bool;
  write_ok : nat -> bool;
  returncode : Z
}.

Definition fps : Z := 30.

Inductive loop_outcome := LoopDone | LoopCancelled | LoopRaised (msg : string).

Section ExportRun.

Variable G : Gfx.
Variables (p : params) (lyrics : list lyric) (env : export_env).

(** [for i in range(total_frames): ...] over the remaining indices. *)
Fixpoint export_loop (total_frames : Z) (idxs : list nat)
  : list event * loop_outcome :=
  match idxs with
  | [] => ([], LoopDone)
  | i :: rest =>
      if negb (is_running env i) then ([EvClose; EvWait], LoopCancelled)
      else
        let t := (Z.of_nat i # 30)%Q in
        match render G p lyrics t with
        | Exc m => ([], LoopRaised m)
        | Ok img =>
            if negb (write_ok env i) then ([], LoopRaised "[Errno 32] Broken pipe")
            else
              let prog :=
                if Z.of_nat i mod 10 =? 0
                then [EvProgress (py_int (fl (fl (inject_Z (Z.of_nat i) / inject_Z total_frames) * 100)))]
                else [] in
              let '(evs, o) := export_loop total_frames rest in
              (EvWrite (tobytes img) :: prog ++ evs, o)
        end
  end.

(** [ExportThread.run] *)
Definition export_run : list event :=
  let total_frames := duration p * fps in
  if negb (launch_ok env) then [EvError "FileNotFoundError"]
  else
    match export_loop total_frames (seq 0 (Z.to_nat total_frames)) with
    | (evs, LoopCancelled) => evs
    | (evs, LoopRaised m) => evs ++ [EvError m]
    | (evs, LoopDone) =>
        evs ++ [EvClose; EvWait;
                if negb (returncode env =? 0)
                then EvError "FFmpeg Error: Export failed (Unknown error)."
                else EvFinished "Export Complete!"]
    end.

End ExportRun.

(** The frames written to the pipe, in order. *)
Fixpoint writes (tr : list event) : list (list Z) :=
  match tr with
  | [] => []
  | EvWrite f :: rest => f :: writes rest
  | _ :: rest => writes rest
  end.

Definition is_terminal_signal (e : event) : bool :=
  match e with
  | EvFinished _ | EvError _ => true
  | _ => false
  end.

(** Python's [round()] on a float: to the nearest integer, ties to even.
    (Used to state the frame count as the spec words it.) *)
Definition py_round (q : Q) : Z :=
  let f := Qfloor q in
  let r := (q - inject_Z f)%Q in
  if Qlt_le_dec r (1 # 2) then f
  else if Qeq_bool r (1 # 2) then (if Z.even f then f else f + 1)
  else f + 1.

(* ------------------------------------------------------------------ *)
(** ** [MainWindow] *)

(** [QSpinBox.setValue]: the value is bounded to the box's range. *)
Definition spin_set_value (lo hi v : Z) : Z := Z.max lo (Z.min hi v).

(** [MainWindow.load_lrc] once [LrcParser.parse] has returned: when there
    are lyrics, the value [spin_dur] (range 1..3600) ends up holding and
    the new maximum of [slider_time] (hundredths of a second); [None] when
    [self.lyrics] is empty and both are left as they were. *)
Definition load_lrc_duration (lyrics : list lyric) : option (Z * Z) :=
  match lyrics with
  | [] => None
  | l0 :: _ =>
      let duration := py_int (time (last lyrics l0)) + 5 in
      Some (spin_set_value 1 3600 duration, duration * 100)
  end.

(** Python objects reachable from [self.params]: the nested dicts
    ['shadow'] and ['stroke'] live in a heap and the params dict holds
    references to them, so that [dict.copy()] (a shallow copy) shares
    them. *)
Definition loc := nat.

Record heap := {
  shadows : loc -> shadow_cfg;
  strokes : loc -> stroke_cfg
}.

(** [d[key] = v] on the dict at [l]. *)
Definition set_shadow (h : heap) (l : loc) (f : shadow_cfg -> shadow_cfg) : heap :=
  {| shadows := fun l' => if Nat.eqb l' l then f (shadows h l) else shadows h l';
     strokes := strokes h |}.

Definition set_stroke (h : heap) (l : loc) (f : stroke_cfg -> stroke_cfg) : heap :=
  {| shadows := shadows h;
     strokes := fun l' => if Nat.eqb l' l then f (strokes h l) else strokes h l' |}.

(** The top-level dict [self.params] (or a copy of it). *)
Record pdict := {
  d_lrc_path : string;
  d_width : Z;
  d_height : Z;
  d_duration : Z;
  d_bitrate : string;
  d_visible_lines : Z;
  d_line_spacing : Z;
  d_align : string;
  d_font_path : string;
  d_font_size : Z;
  d_font_color : rgb;
  d_scale_decay : Q;
  d_fade_decay : Q;
  d_blur_base : Q;
  d_blur_inc : Q;
  d_meta_title : string;
  d_meta_artist : string;
  d_meta_album : string;
  d_shadow : loc;
  d_stroke : loc
}.

(** The values the widgets [get_ui_params] reads hold. *)
Record widgets := {
  inp_title : string;
  inp_artist : string;
  inp_album : string;
  spin_w : Z;
  spin_h : Z;
  spin_dur : Z;
  inp_bitrate : string;
  spin_fsize : Z;
  spin_lines : Z;
  spin_spacing : Z;
  spin_scale_dec : Q;
  spin_fade_dec : Q;
  spin_blur_inc : Q;
  combo_align : string;
  chk_shadow : bool;
  spin_shadow_off : Z;
  chk_stroke : bool;
  spin_stroke_w : Z
}.

(** [MainWindow.get_ui_params]: [p = self.params.copy()], the top-level
    keys of [p] set from the widgets, then the nested dicts [p['shadow']]
    and [p['stroke']] (shared with [self.params]) updated in place. *)
Definition get_ui_params (h : heap) (self_params : pdict) (ui : widgets)
  : heap * pdict :=
  let sp := self_params in
  let p := {|
    d_lrc_path := d_lrc_path sp;
    d_width := spin_w ui;
    d_height := spin_h ui;
    d_duration := spin_dur ui;
    d_bitrate := inp_bitrate ui;
    d_visible_lines := spin_lines ui;
    d_line_spacing := spin_spacing ui;
    d_align := combo_align ui;
    d_font_path := d_font_path sp;
    d_font_size := spin_fsize ui;
    d_font_color := d_font_color sp;
    d_scale_decay := spin_scale_dec ui;
    d_fade_decay := spin_fade_dec ui;
    d_blur_base := d_blur_base sp;
    d_blur_inc := spin_blur_inc ui;
    d_meta_title := inp_title ui;
    d_meta_artist := inp_artist ui;
    d_meta_album := inp_album ui;
    d_shadow := d_shadow sp;
    d_stroke := d_stroke sp |} in
  let h := set_shadow h (d_shadow p) (fun s =>
             {| sh_enabled := chk_shadow ui; sh_color := sh_color s;
                sh_x := sh_x s; sh_y := sh_y s |}) in
  let h := set_shadow h (d_shadow p) (fun s =>
             {| sh_enabled := sh_enabled s; sh_color := sh_color s;
                sh_x := spin_shadow_off ui; sh_y := sh_y s |}) in
  let h := set_shadow h (d_shadow p) (fun s =>
             {| sh_enabled := sh_enabled s; sh_color := sh_color s;
                sh_x := sh_x s; sh_y := spin_shadow_off ui |}) in
  let h := set_stroke h (d_stroke p) (fun s =>
             {| st_enabled := chk_stroke ui; st_color := st_color s;
                st_width := st_width s |}) in
  let h := set_stroke h (d_stroke p) (fun s =>
             {| st_enabled := st_enabled s; st_color := st_color s;
                st_width := spin_stroke_w ui |}) in
  (h, p).

(** [self.p[...]] as [FrameRenderer] reads it when it draws a frame: the
    nested dicts are looked up in the heap of that moment. *)
Definition deref (h : heap) (d : pdict) : params := {|
  width := d_width d;
  height := d_height d;
  duration := d_duration d;
  bitrate := d_bitrate d;
  font_path := d_font_path d;
  font_size := d_font_size d;
  font_color := d_font_color d;
  align := d_align d;
  visible_lines := d_visible_lines d;
  line_spacing := d_line_spacing d;
  scale_decay := d_scale_decay d;
  fade_decay := d_fade_decay d;
  blur_base := d_blur_base d;
  blur_inc := d_blur_inc d;
  shadow := shadows h (d_shadow d);
  stroke := strokes h (d_stroke d);
  meta_title := d_meta_title d;
  meta_artist := d_meta_artist d;
  meta_album := d_meta_album d
|}.

(** [update_preview]: [current_params['width']] and the like scaled by
    [preview_scale = 0.5] through [int()]. *)
Definition preview_params (p : params) : params := {|
  width := py_int (inject_Z (width p) * (1 # 2));
  height := py_int (inject_Z (height p) * (1 # 2));
  duration := duration p;
  bitrate := bitrate p;
  font_path := font_path p;
  font_size := py_int (inject_Z (font_size p) * (1 # 2));
  font_color := font_color p;
  align := align p;
  visible_lines := visible_lines p;
  line_spacing := py_int (inject_Z (line_spacing p) * (1 # 2));
  scale_decay := scale_decay p;
  fade_decay := fade_decay p;
  blur_base := blur_base p;
  blur_inc := blur_inc p;
  shadow := shadow p;
  stroke := stroke p;
  meta_title := meta_title p;
  meta_artist := meta_artist p;
  meta_album := meta_album p
|}.

Section Preview.

Variable G : Gfx.

(** [MainWindow.update_preview]: nothing without lyrics; otherwise the
    heap after [get_ui_params()] and the frame rendered at
    [slider_time.value() / 100]. *)
Definition update_preview (h : heap) (self_params : pdict) (ui : widgets)
  (lyrics : list lyric) (slider : Z) : option (heap * result image) :=
  match lyrics with
  | [] => None
  | _ =>
      let current_time := (slider # 100)%Q in
      let '(h, current_params) := get_ui_params h self_params ui in
      Some (h, render G (preview_params (deref h current_params)) lyrics current_time)
  end.

End Preview.

(* ------------------------------------------------------------------ *)
(** ** A concrete [Gfx]: a block font, used to run examples

    Every character is a 10 x 10 block; resizing samples the nearest
    source pixel; the blur leaves pixels as they are; pasting puts the
    source pixel over the destination unless it is fully transparent. *)

Definition in_rect (x y x0 y0 w h : Z) : bool :=
  (x0 <=? x) && (x <? x0 + w) && (y0 <=? y) && (y <? y0 + h).

Definition block_gfx : Gfx := {|
  font := unit;
  truetype := fun _ size => if 0 <? size then Some tt else None;
  load_default := tt;
  textbbox := fun _ s => (0, 0, N.of_nat (String.length s * 10), 10%N);
  textlength := fun _ s => inject_Z (Z.of_nat (String.length s) * 10);
  draw_text := fun im xy _ s fill _ _ =>
    fun a b =>
      if in_rect a b (Qfloor (fst xy)) (Qfloor (snd xy))
           (Z.of_nat (String.length s) * 10) 10
      then fill else px im a b;
  resize_px := fun im w h =>
    fun a b => px im (a * iw im / w) (b * ih im / h);
  blur_px := fun im _ => px im;
  blend := fun dst src => let '(_, _, _, a) := src in
                          if a =? 0 then dst else src
|}.

Definition sample_params : params := {|
  width := 40; height := 60; duration := 1; bitrate := "40M";
  font_path := "font.ttf"; font_size := 10; font_color := (255, 255, 255);
  align := "center"; visible_lines := 4; line_spacing := 10;
  scale_decay := 1 # 10; fade_decay := 1 # 2; blur_base := 0; blur_inc := 2;
  shadow := {| sh_enabled := false; sh_color := (0, 0, 0); sh_x := 2; sh_y := 2 |};
  stroke := {| st_enabled := false; st_color := (0, 0, 0); st_width := 2 |};
  meta_title := "T"; meta_artist := "A"; meta_album := "B"
|}.

Definition sample_track : list lyric :=
  [ {| time := 0; text := "a" |}; {| time := 2; text := "b" |};
    {| time := 5; text := "c" |} ].

(** [sample_params] with a fade coefficient of 5: lines at distance 1 get
    alpha [max(0, 255 - 5*1*50) = 5]. *)
Definition faint_params : params := {|
  width := 40; height := 60; duration := 1; bitrate := "40M";
  font_path := "font.ttf"; font_size := 10; font_color := (255, 255, 255);
  align := "center"; visible_lines := 4; line_spacing := 10;
  scale_decay := 1 # 10; fade_decay := 5; blur_base := 0; blur_inc := 2;
  shadow := {| sh_enabled := false; sh_color := (0, 0, 0); sh_x := 2; sh_y := 2 |};
  stroke := {| st_enabled := false; st_color := (0, 0, 0); st_width := 2 |};
  meta_title := "T"; meta_artist := "A"; meta_album := "B"
|}.

(** An environment where the encoder starts, [stop()] is never called and
    every write succeeds. *)
Definition always_running : export_env := {|
  launch_ok := true; is_running := fun _ => true;
  write_ok := fun _ => true; returncode := 0
|}.

(** A file system holding only the directory [lyrics]. *)
Definition dir_fs : filesystem :=
  fun p => if String.eqb p "lyrics"%string then Some FDir else None.

(** An environment where [stop()] has been called before frame 12. *)
Definition stop_at_12 : export_env := {|
  launch_ok := true; is_running := fun i => Nat.ltb i 12;
  write_ok := fun _ => true; returncode := 0
|}.

(* ------------------------------------------------------------------ *)
(** ** Predicates used in the statements *)

(** Two lyrics in timestamp order. *)
Definition time_le (a b : lyric) : Prop := (time a <= time b)%Q.

(** No [finished_signal] and no [error_signal] in a trace. *)
Definition no_terminal_signal (tr : list event) : bool :=
  forallb (fun e => negb (is_terminal_signal e)) tr.

(** A lyric has timestamp [k]. *)
Definition at_time (k : Q) (e : lyric) : bool := Qeq_bool (time e) k.

(** A string of [\d] characters. *)
Fixpoint all_digits (s : string) : bool :=
  match s with
  | EmptyString => true
  | String c t => is_digit c && all_digits t
  end.

(** The line [[mm:ss.frac]txt]. *)
Definition tagged_line (mm ss frac txt : string) : string :=
  ("[" ++ mm ++ ":" ++ ss ++ "." ++ frac ++ "]" ++ txt)%string.

(** The file system where no path exists. *)
Definition empty_fs : filesystem := fun _ => None.

(** The values sent by [progress_signal], in order. *)
Fixpoint progress_values (tr : list event) : list Z :=
  match tr with
  | [] => []
  | EvProgress v :: rest => v :: progress_values rest
  | _ :: rest => progress_values rest
  end.

(** [int((i / total_frames) * 100)] *)
Definition progress_pct (total : Z) (i : nat) : Z :=
  py_int (fl (fl (inject_Z (Z.of_nat i) / inject_Z total) * 100)).

(** What a line looks like apart from its position: index, signed
    distance, text, scale, alpha and blur. *)
Definition ld_look (ld : line_draw) : Z * Z * string * Q * Q * Q :=
  (ld_idx ld, ld_dist ld, ld_text ld, ld_scale ld, ld_alpha ld, ld_blur ld).

(** First and last character of a string. *)
Definition first_char (s : string) : option ascii :=
  match s with EmptyString => None | String c _ => Some c end.

Fixpoint last_char (s : string) : option ascii :=
  match s with
  | EmptyString => None
  | String c EmptyString => Some c
  | String _ t => last_char t
  end.

(** A nonempty string that neither starts nor ends with whitespace. *)
Definition trimmed (s : string) : bool :=
  match first_char s, last_char s with
  | Some a, Some b => negb (is_space a) && negb (is_space b)
  | _, _ => false
  end.

(** An environment where the write of frame 3 fails (the encoder has
    gone away). *)
Definition broken_at_3 : export_env := {|
  launch_ok := true; is_running := fun _ => true;
  write_ok := fun i => Nat.ltb i 3; returncode := 0
|}.

(** A file system holding [b.lrc] with one line past the hour. *)
Definition long_fs : filesystem :=
  fun p => if String.eqb p "b.lrc"%string then Some (FFile "[61:00.00]x"%string) else None.

(** Two lines separated by a lone carriage return, the second ending in a
    no-break space. *)
Definition cr_nbsp_content : string :=
  ("[00:01.00]a" ++ String "013"%char ("[00:02.00]b" ++ String "160"%char EmptyString))%string.

Definition cr_nbsp_fs : filesystem :=
  fun p => if String.eqb p "a.lrc"%string then Some (FFile cr_nbsp_content) else None.

(** A window state: the nested dicts of [self.params] at locations 0 and
    1, and two settings of the widgets (shadow off, then on). *)
Definition sample_heap : heap := {|
  shadows := fun _ => {| sh_enabled := false; sh_color := (0, 0, 0); sh_x := 2; sh_y := 2 |};
  strokes := fun _ => {| st_enabled := false; st_color := (0, 0, 0); st_width := 2 |}
|}.

Definition sample_pdict : pdict := {|
  d_lrc_path := "a.lrc"; d_width := 40; d_height := 60; d_duration := 1;
  d_bitrate := "50M"; d_visible_lines := 4; d_line_spacing := 10;
  d_align := "center"; d_font_path := "font.ttf"; d_font_size := 10;
  d_font_color := (255, 255, 255); d_scale_decay := 1 # 10; d_fade_decay := 1 # 2;
  d_blur_base := 0; d_blur_inc := 2; d_meta_title := "T"; d_meta_artist := "A";
  d_meta_album := "B"; d_shadow := 0%nat; d_stroke := 1%nat
|}.

Definition sample_ui (shadow_on : bool) : widgets := {|
  inp_title := "T"; inp_artist := "A"; inp_album := "B"; spin_w := 40; spin_h := 60;
  spin_dur := 1; inp_bitrate := "50M"; spin_fsize := 10; spin_lines := 4;
  spin_spacing := 10; spin_scale_dec := 1 # 10; spin_fade_dec := 1 # 2;
  spin_blur_inc := 2; combo_align := "center"; chk_shadow := shadow_on;
  spin_shadow_off := 3; chk_stroke := false; spin_stroke_w := 2
|}.

(** Concrete inputs of the witnesses below: the first line of
    [sample_track], the line of [long_fs], and the active line of
    [sample_params] at [t = 2] with what [draw_text_with_effects] makes
    of it. *)
Definition first_sample : lyric := {| time := 0; text := "a" |}.

Definition long_line : lyric :=
  hd {| time := 0; text := "" |} (parse_content "[61:00.00]x").

Definition active_sample_line : line_draw :=
  nth 0 (render_plan sample_params sample_track 2) (line_params sample_params "" 0 0).

Definition active_sample_dte : dte_result :=
  draw_text_with_effects block_gfx (ld_text active_sample_line) (header_x sample_params)
    (ld_y active_sample_line) tt (font_color sample_params) (ld_alpha active_sample_line)
    (ld_scale active_sample_line) (ld_blur active_sample_line) (align sample_params)
    (shadow sample_params) (stroke sample_params).


(* ================================================================== *)
(** * Properties *)

Open Scope Q_scope.

Lemma time_le_trans : Relations_1.Transitive time_le.
Proof. intros a b c H1 H2. unfold time_le in *. eapply Qle_trans; eauto. Qed.

Lemma sorted_strongly (l : list lyric) :
  Sorted time_le l -> StronglySorted time_le l.
Proof. apply Sorted_StronglySorted. exact time_le_trans. Qed.

(** ** Active-line index *)

Lemma current_index_from_spec (t : Q) : forall (l : list lyric) (i idx : Z),
  StronglySorted time_le l ->
  (current_index_from l t i idx = idx /\
   forall j x, nth_error l j = Some x -> t < time x) \/
  (exists k x, current_index_from l t i idx = (i + Z.of_nat k)%Z /\
     nth_error l k = Some x /\ time x <= t /\
     forall j y, (k < j)%nat -> nth_error l j = Some y -> t < time y).
Proof.
  induction l as [|x rest IH]; intros i idx Hs; simpl.
  - left. split; [reflexivity|]. intros [|j] y Hj; discriminate.
  - inversion Hs as [|? ? Hs' Hall]; subst.
    destruct (Qle_bool (time x) t) eqn:Hx.
    + apply Qle_bool_iff in Hx. right.
      destruct (IH (i + 1)%Z i Hs') as [[-> Hgt] | (k & y & -> & Hk & Hy & Hgt)].
      * exists O, x. repeat split; [lia|exact Hx|].
        intros [|j] z Hj Hz; [lia|]. exact (Hgt j z Hz).
      * exists (S k), y. repeat split; [lia|exact Hk|exact Hy|].
        intros [|j] z Hj Hz; [lia|]. apply (Hgt j z); [lia|exact Hz].
    + left. split; [reflexivity|].
      assert (Hlt : t < time x).
      { apply Qnot_le_lt. intro Hle. apply Qle_bool_iff in Hle. congruence. }
      intros [|j] y Hj.
      * simpl in Hj. inversion Hj; subst. exact Hlt.
      * simpl in Hj. apply nth_error_In in Hj.
        rewrite Forall_forall in Hall. specialize (Hall y Hj). unfold time_le in Hall.
        eapply Qlt_le_trans; eauto.
Qed.

(** Claim C4: on a track sorted ascending by timestamp,
    [get_current_line_index] returns the greatest index whose timestamp is
    at most the query time, and -1 when there is none (so for the empty
    track); on the track [(0,"a"),(2,"b"),(5,"c")] the times 1, 2, 5.5 and
    -1 give 0, 1, 2 and -1. *)
Theorem get_current_line_index_greatest (lyrics : list lyric) (t : Q) :
  Sorted time_le lyrics ->
  ((get_current_line_index lyrics t = (-1)%Z /\
    forall j x, nth_error lyrics j = Some x -> t < time x) \/
   (exists k x, get_current_line_index lyrics t = Z.of_nat k /\
      nth_error lyrics k = Some x /\ time x <= t /\
      forall j y, (k < j)%nat -> nth_error lyrics j = Some y -> t < time y)) /\
  get_current_line_index [] t = (-1)%Z /\
  get_current_line_index sample_track 1 = 0%Z /\
  get_current_line_index sample_track 2 = 1%Z /\
  get_current_line_index sample_track (11 # 2) = 2%Z /\
  get_current_line_index sample_track (-1) = (-1)%Z.
Proof.
  intros Hs. split; [|repeat split; reflexivity].
  unfold get_current_line_index.
  destruct (current_index_from_spec t lyrics 0 (-1) (sorted_strongly _ Hs))
    as [H | (k & x & H1 & H2 & H3 & H4)].
  - left. exact H.
  - right. exists k, x. repeat split; auto.
Qed.

(** Witness of C4. *)
Lemma get_current_line_index_greatest_witness :
  Sorted time_le sample_track /\
  get_current_line_index sample_track (11 # 2) = 2%Z.
Proof.
  assert (Hs : Sorted time_le sample_track).
  { repeat constructor; unfold time_le; simpl; vm_compute; discriminate. }
  split; [exact Hs|].
  destruct (get_current_line_index_greatest sample_track (11 # 2) Hs)
    as [_ (_ & _ & _ & H & _)]. exact H.
Defined.

(** ** Sorting by timestamp *)

Lemma insert_by_time_perm (x : lyric) (l : list lyric) :
  Permutation (insert_by_time x l) (x :: l).
Proof.
  induction l as [|h t IH]; simpl; [reflexivity|].
  destruct (Qlt_le_dec (time x) (time h)); [reflexivity|].
  rewrite IH. apply perm_swap.
Qed.

Lemma insert_by_time_sorted (x : lyric) (l : list lyric) :
  Sorted time_le l -> Sorted time_le (insert_by_time x l).
Proof.
  induction 1 as [|h t Hs IH Hhd]; simpl.
  - repeat constructor.
  - destruct (Qlt_le_dec (time x) (time h)) as [Hlt|Hle].
    + constructor; [constructor; assumption|].
      constructor. unfold time_le. apply Qlt_le_weak. exact Hlt.
    + constructor; [exact IH|].
      destruct t as [|h' t']; simpl.
      * constructor. exact Hle.
      * inversion Hhd; subst.
        destruct (Qlt_le_dec (time x) (time h')); constructor; assumption.
Qed.

Lemma sort_by_time_gen (l acc : list lyric) :
  Sorted time_le acc ->
  Sorted time_le (fold_left (fun acc x => insert_by_time x acc) l acc) /\
  Permutation (fold_left (fun acc x => insert_by_time x acc) l acc) (rev l ++ acc).
Proof.
  revert acc. induction l as [|x l IH]; intros acc Hs; simpl.
  - split; [exact Hs|reflexivity].
  - destruct (IH (insert_by_time x acc) (insert_by_time_sorted x acc Hs)) as [H1 H2].
    split; [exact H1|]. rewrite H2, <- app_assoc. simpl.
    apply Permutation_app_head. apply insert_by_time_perm.
Qed.

(** Stability: among elements of one timestamp [k], the inserted element
    goes last. *)
Lemma filter_at_time_none (k : Q) (l : list lyric) (x : lyric) :
  StronglySorted time_le l ->
  (forall h, hd_error l = Some h -> time x < time h) ->
  at_time k x = true -> filter (at_time k) l = [].
Proof.
  intros Hs Hhd Hx. destruct l as [|h t]; [reflexivity|].
  specialize (Hhd h eq_refl).
  inversion Hs as [|? ? _ Hall]; subst.
  apply Qeq_bool_iff in Hx.
  assert (Hgt : forall y, In y (h :: t) -> k < time y).
  { intros y [<-|Hy].
    - rewrite <- Hx. exact Hhd.
    - rewrite Forall_forall in Hall. specialize (Hall y Hy). unfold time_le in Hall.
      rewrite <- Hx. eapply Qlt_le_trans; eauto. }
  clear Hs Hall Hhd. induction (h :: t) as [|y ys IH]; simpl; [reflexivity|].
  unfold at_time at 1. destruct (Qeq_bool (time y) k) eqn:E.
  - apply Qeq_bool_iff in E. specialize (Hgt y (or_introl eq_refl)).
    rewrite E in Hgt. exfalso. exact (Qlt_irrefl _ Hgt).
  - apply IH. intros z Hz. apply Hgt. right. exact Hz.
Qed.

Lemma filter_insert_by_time (k : Q) (x : lyric) (l : list lyric) :
  Sorted time_le l ->
  filter (at_time k) (insert_by_time x l) =
  filter (at_time k) l ++ filter (at_time k) [x].
Proof.
  intros Hs. apply sorted_strongly in Hs. induction l as [|h t IH]; [reflexivity|].
  cbn [insert_by_time]. destruct (Qlt_le_dec (time x) (time h)) as [Hlt|Hle].
  - destruct (at_time k x) eqn:Hx.
    + transitivity (x :: filter (at_time k) (h :: t)).
      { cbn [filter]. rewrite Hx. reflexivity. }
      rewrite (filter_at_time_none k (h :: t) x Hs); [| |exact Hx].
      * cbn [filter app]. rewrite Hx. reflexivity.
      * intros h' Hh'. inversion Hh'; subst. exact Hlt.
    + cbn [filter]. rewrite Hx, app_nil_r. reflexivity.
  - inversion Hs; subst. cbn [filter].
    destruct (at_time k h); rewrite IH by assumption; reflexivity.
Qed.

Lemma filter_sort_gen (k : Q) (l acc : list lyric) :
  Sorted time_le acc ->
  filter (at_time k) (fold_left (fun acc x => insert_by_time x acc) l acc) =
  filter (at_time k) acc ++ filter (at_time k) l.
Proof.
  revert acc. induction l as [|x l IH]; intros acc Hs; simpl.
  - rewrite app_nil_r. reflexivity.
  - rewrite (IH _ (insert_by_time_sorted x acc Hs)).
    rewrite filter_insert_by_time by exact Hs.
    rewrite <- app_assoc. simpl. destruct (at_time k x); reflexivity.
Qed.

Lemma parse_existing_file (fs : filesystem) (file_path content : string) :
  file_path <> EmptyString -> fs file_path = Some (FFile content) ->
  parse fs file_path = Ok (parse_content content).
Proof.
  intros Hne Hf. unfold parse, path_exists, open_read.
  destruct file_path as [|c s]; [contradiction|]. rewrite Hf. reflexivity.
Qed.

(** Claim C6: whatever the order of the lines of the source, [parse]
    (which returns [parse_content] of an existing file, see
    [parse_existing_file]) returns the parsed entries sorted ascending by
    timestamp, as a permutation of the entries in line order, and entries
    of equal timestamp keep their relative order from the source. *)
Theorem parse_content_stable_sorted (content : string) :
  Sorted time_le (parse_content content) /\
  Permutation (parse_content content) (collect (readlines content)) /\
  forall k : Q,
    filter (at_time k) (parse_content content) =
    filter (at_time k) (collect (readlines content)).
Proof.
  unfold parse_content, sort_by_time.
  destruct (sort_by_time_gen (collect (readlines content)) [] (Sorted_nil _)) as [H1 H2].
  split; [exact H1|split].
  - rewrite H2, app_nil_r. symmetry. apply Permutation_rev.
  - intros k. rewrite (filter_sort_gen k _ [] (Sorted_nil _)). reflexivity.
Qed.

(** ** Parser: what a match carries *)

Lemma digit_val_nonneg (c : ascii) : is_digit c = true -> (0 <= digit_val c)%Z.
Proof.
  unfold is_digit, digit_val. intros H.
  apply andb_true_iff in H as [H _]. apply Nat.leb_le in H. lia.
Qed.

Lemma digits_value_aux_nonneg (s : string) : forall acc,
  all_digits s = true -> (0 <= acc)%Z -> (0 <= digits_value_aux s acc)%Z.
Proof.
  induction s as [|c t IH]; intros acc Hd Hacc;
    cbn [digits_value_aux all_digits] in *; [exact Hacc|].
  apply andb_true_iff in Hd as [Hc Ht]. apply IH; [exact Ht|].
  pose proof (digit_val_nonneg c Hc). lia.
Qed.

Ltac split_bools :=
  repeat match goal with
  | H : (_ && _) = true |- _ => apply andb_true_iff in H as [? ?]
  end.

Lemma match_tag_digits (s : string) (m : tag_match) :
  match_tag s = Some m ->
  all_digits (g_mm m) = true /\ all_digits (g_ss m) = true /\
  all_digits (g_ms m) = true.
Proof.
  unfold match_tag. cbv zeta. intros H.
  repeat match goal with
  | H : Some _ = Some _ |- _ => injection H as H; subst
  | H : None = Some _ |- _ => discriminate H
  | H : context [match ?x with _ => _ end] |- _ => destruct x eqn:?
  end;
  split_bools; simpl;
  repeat match goal with Hd : is_digit _ = true |- _ => rewrite Hd; clear Hd end;
  auto.
Qed.

Lemma search_match (s : string) (m : tag_match) :
  search s = Some m -> exists s', match_tag s' = Some m.
Proof.
  induction s as [|c t IH]; intros H.
  - discriminate H.
  - cbn [search] in H. destruct (match_tag (String c t)) eqn:E.
    + injection H as <-. eauto.
    + apply IH. exact H.
Qed.

Lemma match_seconds_nonneg (m : tag_match) (s : string) :
  match_tag s = Some m -> 0 <= match_seconds m.
Proof.
  intros H. destruct (match_tag_digits s m H) as (H1 & H2 & H3).
  pose proof (digits_value_aux_nonneg _ 0 H1 (Z.le_refl 0)) as P1.
  pose proof (digits_value_aux_nonneg _ 0 H2 (Z.le_refl 0)) as P2.
  pose proof (digits_value_aux_nonneg _ 0 H3 (Z.le_refl 0)) as P3.
  unfold match_seconds, py_int_str.
  set (a := digits_value_aux (g_mm m) 0) in *.
  set (b := digits_value_aux (g_ss m) 0) in *.
  set (c := digits_value_aux (g_ms m) 0) in *.
  assert (Hc : (0 <= (if (String.length (g_ms m) =? 2)%nat then c * 10 else c))%Z)
    by (destruct (_ =? _)%nat; lia).
  revert Hc. generalize (if (String.length (g_ms m) =? 2)%nat then (c * 10)%Z else c).
  intros z Hz. unfold Qle, Qplus. simpl. nia.
Qed.

Lemma parse_line_wellformed (raw : string) (e : lyric) :
  parse_line raw = Some e -> text e <> EmptyString /\ 0 <= time e.
Proof.
  unfold parse_line. destruct (search (strip raw)) as [m|] eqn:Es; [|discriminate].
  destruct (strip (sub_tags (strip raw))) as [|c t] eqn:Et; [discriminate|].
  intros H. injection H as <-. simpl. split; [discriminate|].
  destruct (search_match _ _ Es) as [s' Hs']. exact (match_seconds_nonneg m s' Hs').
Qed.

Lemma collect_from_lines (lines : list string) (e : lyric) :
  In e (collect lines) -> exists raw, In raw lines /\ parse_line raw = Some e.
Proof.
  induction lines as [|l ls IH]; simpl; [contradiction|].
  destruct (parse_line l) as [e'|] eqn:El.
  - intros [<-|H]; [eauto|]. destruct (IH H) as (r & Hr & Hp). eauto.
  - intros H. destruct (IH H) as (r & Hr & Hp). eauto.
Qed.

(** ** Parser robustness *)

(** Claim C9, as worded, is refuted: the path [lyrics] names an existing
    directory, not an existing file; [os.path.exists] is true for it, so
    [parse] goes on to [open] it, which raises [IsADirectoryError]. *)
Lemma parse_directory_counterexample :
  dir_fs "lyrics"%string = Some FDir /\
  parse dir_fs "lyrics"%string = Exc "IsADirectoryError"%string.
Proof. split; reflexivity. Qed.

(** Claim C9 (amended): for an empty path, or a path with no entry in the
    file system ([os.path.exists] is false), [parse] returns the empty
    sequence and raises nothing. *)
Theorem parse_missing_path_empty (fs : filesystem) (file_path : string) :
  file_path = EmptyString \/ fs file_path = None ->
  parse fs file_path = Ok [].
Proof.
  intros [-> | H]; [reflexivity|].
  unfold parse, path_exists. rewrite H. destruct file_path; reflexivity.
Qed.

(** Witness of C9. *)
Lemma parse_missing_path_empty_witness :
  empty_fs "song.lrc"%string = None /\ parse empty_fs "song.lrc"%string = Ok [].
Proof.
  split; [reflexivity|].
  apply (parse_missing_path_empty empty_fs "song.lrc"%string). right. reflexivity.
Defined.

(** ** Parser output invariant *)

(** Claim C10: every entry [parse] returns has a non-empty text and a
    non-negative timestamp, and a line whose tag is found but whose text
    is empty once the tags are removed and the line stripped gives no
    entry. *)
Theorem parse_entries_wellformed (fs : filesystem) (file_path : string)
  (out : list lyric) :
  parse fs file_path = Ok out ->
  Forall (fun e => text e <> EmptyString /\ 0 <= time e) out /\
  (forall raw, search (strip raw) <> None ->
     strip (sub_tags (strip raw)) = EmptyString -> parse_line raw = None).
Proof.
  intros H. split.
  - unfold parse in H. destruct file_path as [|c s].
    + injection H as <-. constructor.
    + destruct (negb (path_exists fs (String c s))).
      { injection H as <-. constructor. }
      destruct (open_read fs (String c s)) as [content|msg]; simpl in H; [|discriminate].
      injection H as <-. apply Forall_forall. intros e He.
      unfold parse_content, sort_by_time in He.
      destruct (sort_by_time_gen (collect (readlines content)) [] (Sorted_nil _)) as [_ Hp].
      apply (Permutation_in e Hp) in He. rewrite app_nil_r in He. apply in_rev in He.
      destruct (collect_from_lines _ e He) as (raw & _ & Hr).
      exact (parse_line_wellformed raw e Hr).
  - intros raw Hs Ht. unfold parse_line.
    destruct (search (strip raw)); [|reflexivity]. rewrite Ht. reflexivity.
Qed.

(** A tag followed only by a no-break space. *)
Definition nbsp_line : string := ("[00:01.00]" ++ String "160"%char EmptyString)%string.

(** A file with one line carrying a tag and text, used by the witness. *)
Definition one_line_fs : filesystem :=
  fun p => if String.eqb p "a.lrc"%string then Some (FFile "[00:01.00]x"%string) else None.

(** Witness of C10. *)
Lemma parse_entries_wellformed_witness :
  exists out, parse one_line_fs "a.lrc"%string = Ok out /\ out <> [] /\
    Forall (fun e => text e <> EmptyString /\ 0 <= time e) out /\
    parse_line nbsp_line = None.
Proof.
  destruct (parse one_line_fs "a.lrc"%string) as [out|msg] eqn:H;
    [|vm_compute in H; discriminate H].
  exists out. split; [reflexivity|]. split.
  - vm_compute in H. injection H as <-. discriminate.
  - split.
    + exact (proj1 (parse_entries_wellformed one_line_fs "a.lrc"%string out H)).
    + apply (proj2 (parse_entries_wellformed one_line_fs "a.lrc"%string out H)).
      * vm_compute. discriminate.
      * vm_compute. reflexivity.
Defined.

(** ** Parser: timestamp of a well-formed tag *)

Lemma str_app_assoc (a b c : string) :
  ((a ++ b) ++ c)%string = (a ++ (b ++ c))%string.
Proof. induction a as [|x a IH]; simpl; [reflexivity|]. rewrite IH. reflexivity. Qed.

Lemma rev_str_app (s1 s2 acc : string) :
  rev_str (s1 ++ s2) acc = rev_str s2 (rev_str s1 acc).
Proof. revert acc. induction s1 as [|c t IH]; intros acc; simpl; auto. Qed.

Lemma rev_str_acc (s acc : string) : rev_str s acc = (rev_str s EmptyString ++ acc)%string.
Proof.
  revert acc. induction s as [|c t IH]; intros acc; simpl; [reflexivity|].
  rewrite IH, (IH (String c EmptyString)). rewrite str_app_assoc. reflexivity.
Qed.

Lemma rev_str_involutive (s : string) : rev_str (rev_str s EmptyString) EmptyString = s.
Proof.
  induction s as [|c t IH]; simpl; [reflexivity|].
  rewrite (rev_str_acc t (String c EmptyString)), rev_str_app. simpl.
  rewrite IH. reflexivity.
Qed.

Lemma lstrip_app_nonspace (x y : string) (c : ascii) :
  is_space c = false ->
  exists z, lstrip (x ++ String c y) = (z ++ String c y)%string.
Proof.
  intros Hc. induction x as [|a x IH]; simpl.
  - rewrite Hc. exists EmptyString. reflexivity.
  - destruct (is_space a).
    + exact IH.
    + exists (String a x). reflexivity.
Qed.

(** Stripping a line that starts with a non-space character and has a
    prefix [t0 ++ c] ending in a non-space character keeps that prefix. *)
Lemma strip_keeps_prefix (o : ascii) (t0 : string) (c : ascii) (rest : string) :
  is_space o = false -> is_space c = false ->
  exists z, strip ((String o t0 ++ String c EmptyString) ++ rest) =
            (String o t0 ++ String c z)%string.
Proof.
  intros Ho Hc. unfold strip.
  set (P := String o t0).
  assert (E1 : lstrip ((P ++ String c EmptyString) ++ rest) =
               ((P ++ String c EmptyString) ++ rest)%string)
    by (simpl; rewrite Ho; reflexivity).
  assert (E2 : rev_str ((P ++ String c EmptyString) ++ rest) EmptyString =
               (rev_str rest EmptyString ++ String c (rev_str P EmptyString))%string).
  { rewrite rev_str_app, rev_str_app. apply rev_str_acc. }
  rewrite E1, E2.
  destruct (lstrip_app_nonspace (rev_str rest EmptyString) (rev_str P EmptyString) c Hc)
    as [z Hz].
  rewrite Hz, rev_str_app. cbn [rev_str].
  rewrite rev_str_acc, rev_str_involutive.
  exists (rev_str z EmptyString). reflexivity.
Qed.

Lemma match_tag_two (m1 m2 s1 s2 f1 f2 : ascii) (z : string) :
  is_digit m1 = true -> is_digit m2 = true -> is_digit s1 = true ->
  is_digit s2 = true -> is_digit f1 = true -> is_digit f2 = true ->
  match_tag (String "[" (String m1 (String m2 (String ":" (String s1 (String s2
    (String "." (String f1 (String f2 (String "]" z)))))))))) =
  Some {| g_mm := two m1 m2; g_ss := two s1 s2; g_ms := two f1 f2; after := z |}.
Proof.
  intros H1 H2 H3 H4 H5 H6. unfold match_tag.
  rewrite H1, H2, H3, H4, H5, H6. simpl. destruct z; reflexivity.
Qed.

Lemma match_tag_three (m1 m2 s1 s2 f1 f2 f3 : ascii) (z : string) :
  is_digit m1 = true -> is_digit m2 = true -> is_digit s1 = true ->
  is_digit s2 = true -> is_digit f1 = true -> is_digit f2 = true ->
  is_digit f3 = true ->
  match_tag (String "[" (String m1 (String m2 (String ":" (String s1 (String s2
    (String "." (String f1 (String f2 (String f3 (String "]" z))))))))))) =
  Some {| g_mm := two m1 m2; g_ss := two s1 s2; g_ms := three f1 f2 f3; after := z |}.
Proof.
  intros H1 H2 H3 H4 H5 H6 H7. unfold match_tag.
  rewrite H1, H2, H3, H4, H5, H6, H7. reflexivity.
Qed.

(** The value of the two-digit field [ab]. *)
Lemma py_int_str_two (a b : ascii) :
  py_int_str (two a b) = (10 * digit_val a + digit_val b)%Z.
Proof. unfold py_int_str, two. cbn [digits_value_aux]. lia. Qed.

Lemma py_int_str_three (a b c : ascii) :
  py_int_str (three a b c) = (100 * digit_val a + 10 * digit_val b + digit_val c)%Z.
Proof. unfold py_int_str, three. cbn [digits_value_aux]. lia. Qed.

(** Claim C5: for a line [[MM:SS.ff]text] the parsed timestamp is
    [MM*60 + SS + (ff*10)/1000], for a line [[MM:SS.fff]text] it is
    [MM*60 + SS + fff/1000]; [[01:02.50]Hello] gives 62.5 s and
    [[00:00.123]Hi] gives 0.123 s. *)
Theorem parse_line_timestamp (m1 m2 s1 s2 f1 f2 : ascii) (txt : string) :
  is_digit m1 = true -> is_digit m2 = true -> is_digit s1 = true ->
  is_digit s2 = true -> is_digit f1 = true -> is_digit f2 = true ->
  let MM := (10 * digit_val m1 + digit_val m2)%Z in
  let SS := (10 * digit_val s1 + digit_val s2)%Z in
  (forall e, parse_line (tagged_line (two m1 m2) (two s1 s2) (two f1 f2) txt) = Some e ->
     time e == inject_Z (MM * 60 + SS) +
               inject_Z ((10 * digit_val f1 + digit_val f2) * 10) / 1000) /\
  (forall f3 e, is_digit f3 = true ->
     parse_line (tagged_line (two m1 m2) (two s1 s2) (three f1 f2 f3) txt) = Some e ->
     time e == inject_Z (MM * 60 + SS) +
               inject_Z (100 * digit_val f1 + 10 * digit_val f2 + digit_val f3) / 1000) /\
  (exists e, parse_line "[01:02.50]Hello" = Some e /\ time e == 125 # 2 /\
             text e = "Hello"%string) /\
  (exists e, parse_line "[00:00.123]Hi" = Some e /\ time e == 123 # 1000 /\
             text e = "Hi"%string).
Proof.
  intros H1 H2 H3 H4 H5 H6 MM SS. split; [|split; [|split]].
  - intros e He. unfold parse_line in He.
    destruct (strip_keeps_prefix "[" (String m1 (String m2 (String ":" (String s1
                (String s2 (String "." (String f1 (String f2 EmptyString))))))))
                "]" txt eq_refl eq_refl) as [z Hz].
    change (tagged_line (two m1 m2) (two s1 s2) (two f1 f2) txt) with
      ((String "[" (String m1 (String m2 (String ":" (String s1 (String s2
        (String "." (String f1 (String f2 EmptyString))))))))
        ++ String "]" EmptyString) ++ txt)%string in He.
    rewrite Hz in He. simpl (_ ++ _)%string in He.
    cbn [search] in He. rewrite match_tag_two in He by assumption.
    destruct (strip (sub_tags _)); [discriminate|].
    injection He as <-. simpl time. unfold match_seconds. simpl g_ms.
    simpl g_mm. simpl g_ss. rewrite !py_int_str_two. simpl (String.length _).
    cbn iota beta. rewrite Qmake_Qdiv. reflexivity.
  - intros f3 e H7 He. unfold parse_line in He.
    destruct (strip_keeps_prefix "[" (String m1 (String m2 (String ":" (String s1
                (String s2 (String "." (String f1 (String f2 (String f3 EmptyString)))))))))
                "]" txt eq_refl eq_refl) as [z Hz].
    change (tagged_line (two m1 m2) (two s1 s2) (three f1 f2 f3) txt) with
      ((String "[" (String m1 (String m2 (String ":" (String s1 (String s2
        (String "." (String f1 (String f2 (String f3 EmptyString)))))))))
        ++ String "]" EmptyString) ++ txt)%string in He.
    rewrite Hz in He. simpl (_ ++ _)%string in He.
    cbn [search] in He. rewrite match_tag_three in He by assumption.
    destruct (strip (sub_tags _)); [discriminate|].
    injection He as <-. simpl time. unfold match_seconds. simpl g_ms.
    simpl g_mm. simpl g_ss. rewrite !py_int_str_two, py_int_str_three.
    simpl (String.length _). cbn iota beta. rewrite Qmake_Qdiv. reflexivity.
  - eexists. split; [vm_compute; reflexivity|]. split; reflexivity.
  - eexists. split; [vm_compute; reflexivity|]. split; reflexivity.
Qed.

(** Witness of C5. *)
Lemma parse_line_timestamp_witness :
  exists e, parse_line (tagged_line "01" "02" "50" "Hello") = Some e /\
    time e == inject_Z (1 * 60 + 2) + inject_Z (50 * 10) / 1000.
Proof.
  destruct (parse_line (tagged_line "01" "02" "50" "Hello")) as [e|] eqn:He;
    [|vm_compute in He; discriminate He].
  exists e. split; [reflexivity|].
  exact (proj1 (parse_line_timestamp "0" "1" "0" "2" "5" "0" "Hello"
                  eq_refl eq_refl eq_refl eq_refl eq_refl eq_refl) e He).
Defined.

(** ** Renderer: per-line values *)

Lemma py_max_Qmax (a b : Q) : py_max a b == Qmax a b.
Proof.
  unfold py_max. destruct (Qlt_le_dec a b) as [H|H].
  - symmetry. apply Q.max_r. apply Qlt_le_weak. exact H.
  - symmetry. apply Q.max_l. exact H.
Qed.

Lemma render_list_offset (curr n vl idx dist : Z) :
  In (idx, dist) (render_list curr n vl) -> idx = (curr + dist)%Z.
Proof.
  unfold render_list. intros [H|H].
  - injection H as <- <-. lia.
  - apply in_flat_map in H as (i & _ & Hi). apply in_app_or in Hi as [Hi|Hi].
    + destruct (curr - i >=? 0)%Z; [|contradiction].
      destruct Hi as [Hi|[]]. injection Hi as <- <-. lia.
    + destruct (curr + i <? n)%Z; [|contradiction].
      destruct Hi as [Hi|[]]. injection Hi as <- <-. lia.
Qed.

Lemma render_plan_in (p : params) (lyrics : list lyric) (t : Q) (ld : line_draw) :
  In ld (render_plan p lyrics t) ->
  exists idx dist l,
    In (idx, dist) (render_list (get_current_line_index lyrics t)
                      (Z.of_nat (length lyrics)) (visible_lines p)) /\
    nth_error lyrics (Z.to_nat idx) = Some l /\
    ld = line_params p (text l) idx dist.
Proof.
  unfold render_plan. intros H. apply in_flat_map in H as ([idx dist] & Hin & H).
  destruct ((idx <? 0)%Z || (Z.of_nat (length lyrics) <=? idx)%Z); [contradiction|].
  destruct (nth_error lyrics (Z.to_nat idx)) as [l|] eqn:E; [|contradiction].
  destruct H as [<-|[]]. exists idx, dist, l. auto.
Qed.

(** Claim C1: every line [render] draws, at absolute distance [d] from the
    active line, gets scale [max(0.1, 1 - scale_decay*d)], alpha
    [max(0, 255 - fade_decay*d*50)] (255 when [d = 0]) and blur radius
    [blur_base + blur_inc*d] (0 when [d = 0]); these are the values
    [draw_line] passes to [draw_text_with_effects]. *)
Theorem render_line_effects (p : params) (lyrics : list lyric) (t : Q)
  (ld : line_draw) :
  In ld (render_plan p lyrics t) ->
  let d := Z.abs (ld_dist ld) in
  ld_idx ld = (get_current_line_index lyrics t + ld_dist ld)%Z /\
  ld_scale ld == Qmax (1 # 10) (1 - scale_decay p * inject_Z d) /\
  ld_alpha ld == (if (d =? 0)%Z then 255
                  else Qmax 0 (255 - fade_decay p * inject_Z d * 50)) /\
  ld_blur ld == (if (d =? 0)%Z then 0 else blur_base p + blur_inc p * inject_Z d).
Proof.
  intros H d. destruct (render_plan_in p lyrics t ld H) as (idx & dist & l & Hin & _ & ->).
  apply render_list_offset in Hin. subst d. unfold line_params, py_abs. simpl.
  split; [exact Hin|]. split; [apply py_max_Qmax|].
  assert (Hz : (Z.abs dist =? 0)%Z = (dist =? 0)%Z).
  { destruct (dist =? 0)%Z eqn:E.
    - apply Z.eqb_eq in E. subst. reflexivity.
    - apply Z.eqb_neq in E. apply Z.eqb_neq. lia. }
  rewrite Hz. split; destruct (dist =? 0)%Z; try reflexivity. apply py_max_Qmax.
Qed.

(** Witness of C1. *)
Lemma render_line_effects_witness :
  In (line_params sample_params "a" 0 (-1)) (render_plan sample_params sample_track 2) /\
  ld_alpha (line_params sample_params "a" 0 (-1)) ==
    Qmax 0 (255 - fade_decay sample_params * inject_Z 1 * 50).
Proof.
  assert (H : In (line_params sample_params "a" 0 (-1))
                 (render_plan sample_params sample_track 2))
    by (right; left; reflexivity).
  split; [exact H|].
  exact (proj1 (proj2 (proj2 (render_line_effects _ _ _ _ H)))).
Defined.

(** ** Renderer: vertical position *)

(** Claim C3, as worded, is refuted: on [sample_track] at [t = 2] the line
    one above the active line ([ld_dist = -1]) is drawn at
    [center_y - (font_size + line_spacing)], not at
    [center_y + sign(-1)*(-1)*(font_size + line_spacing)]. *)
Lemma render_line_y_sign_counterexample :
  ~ (forall ld, In ld (render_plan sample_params sample_track 2) ->
       ld_y ld = (center_y sample_params + Z.sgn (ld_dist ld) * ld_dist ld *
                  (font_size sample_params + line_spacing sample_params))%Z).
Proof.
  intros H.
  specialize (H (line_params sample_params "a" 0 (-1)) (or_intror (or_introl eq_refl))).
  vm_compute in H. discriminate H.
Qed.

(** Claim C3 (amended): every line [render] draws with signed distance
    [dist] from the active line is centred vertically at
    [center_y + dist*(font_size + line_spacing)], lines above the active
    line having negative [dist]; [center_y] is
    [top + (height - top - 50) // 2] with [top = 40 + 4*font_size]. *)
Theorem render_line_y (p : params) (lyrics : list lyric) (t : Q) (ld : line_draw) :
  In ld (render_plan p lyrics t) ->
  ld_y ld = (center_y p + ld_dist ld * (font_size p + line_spacing p))%Z /\
  ld_idx ld = (get_current_line_index lyrics t + ld_dist ld)%Z /\
  center_y p = (40 + 4 * font_size p + (height p - (40 + 4 * font_size p) - 50) / 2)%Z.
Proof.
  intros H. destruct (render_plan_in p lyrics t ld H) as (idx & dist & l & Hin & _ & ->).
  apply render_list_offset in Hin. simpl.
  split; [reflexivity|]. split; [exact Hin|].
  unfold center_y, scroll_area_height, scroll_area_top, margin_top.
  rewrite (Z.mul_comm (font_size p) 4). reflexivity.
Qed.

(** Witness of C3. *)
Lemma render_line_y_witness :
  In (line_params sample_params "a" 0 (-1)) (render_plan sample_params sample_track 2) /\
  ld_y (line_params sample_params "a" 0 (-1)) =
    (center_y sample_params - (font_size sample_params + line_spacing sample_params))%Z.
Proof.
  assert (H : In (line_params sample_params "a" 0 (-1))
                 (render_plan sample_params sample_track 2))
    by (right; left; reflexivity).
  split; [exact H|].
  rewrite (proj1 (render_line_y _ _ _ _ H)). simpl ld_dist. lia.
Defined.

(** ** Renderer: visibility cutoff *)

Lemma draw_line_faint (G : Gfx) (p : params) (fs : fonts G) (img : image)
  (ld : line_draw) :
  ld_alpha ld <= 5 -> draw_line G p fs img ld = Ok img.
Proof.
  intros H. unfold draw_line, draw_text_with_effects.
  apply Qle_bool_iff in H. rewrite H. reflexivity.
Qed.

Lemma draw_lines_drop (G : Gfx) (p : params) (fs : fonts G) (ld : line_draw)
  (post : list line_draw) :
  (forall img, draw_line G p fs img ld = Ok img) ->
  forall pre img, draw_lines G p fs img (pre ++ ld :: post) =
                  draw_lines G p fs img (pre ++ post).
Proof.
  intros Hld pre. induction pre as [|x pre IH]; intros img; simpl.
  - rewrite Hld. reflexivity.
  - destruct (draw_line G p fs img x); simpl; [apply IH|reflexivity].
Qed.

(** Claim C7: a line whose alpha is at most 5 is skipped:
    [draw_text_with_effects] returns [(None, 0, 0)], the drawing step of
    that line leaves the frame as it is at every pixel, and the frame
    [render] produces is the frame rendered without that line, so the line
    puts no pixel into it. *)
Theorem render_skips_faint_line (G : Gfx) (p : params) (lyrics : list lyric)
  (t : Q) (pre : list line_draw) (ld : line_draw) (post : list line_draw) :
  render_plan p lyrics t = pre ++ ld :: post ->
  ld_alpha ld <= 5 ->
  draw_text_with_effects G (ld_text ld) (header_x p) (ld_y ld)
    (lyric_font G (load_fonts G p)) (font_color p) (ld_alpha ld) (ld_scale ld)
    (ld_blur ld) (align p) (shadow p) (stroke p) = DteSkip /\
  (forall img, draw_line G p (load_fonts G p) img ld = Ok img) /\
  render G p lyrics t = render_from_plan G p (pre ++ post).
Proof.
  intros Hplan Ha.
  assert (Hstep : forall img, draw_line G p (load_fonts G p) img ld = Ok img)
    by (intros img; apply draw_line_faint; exact Ha).
  split; [|split; [exact Hstep|]].
  - unfold draw_text_with_effects. apply Qle_bool_iff in Ha. rewrite Ha. reflexivity.
  - unfold render, render_from_plan. rewrite Hplan.
    destruct (image_new (width p) (height p) transparent); simpl; [|reflexivity].
    apply draw_lines_drop. exact Hstep.
Qed.

(** Witness of C7. *)
Lemma render_skips_faint_line_witness :
  render_plan faint_params sample_track 2 =
    [line_params faint_params "b" 1 0] ++
    line_params faint_params "a" 0 (-1) :: [line_params faint_params "c" 2 1] /\
  ld_alpha (line_params faint_params "a" 0 (-1)) <= 5 /\
  render block_gfx faint_params sample_track 2 =
    render_from_plan block_gfx faint_params
      ([line_params faint_params "b" 1 0] ++ [line_params faint_params "c" 2 1]).
Proof.
  assert (H1 : render_plan faint_params sample_track 2 =
    [line_params faint_params "b" 1 0] ++
    line_params faint_params "a" 0 (-1) :: [line_params faint_params "c" 2 1])
    by (vm_compute; reflexivity).
  assert (H2 : ld_alpha (line_params faint_params "a" 0 (-1)) <= 5)
    by (vm_compute; discriminate).
  split; [exact H1|]. split; [exact H2|].
  exact (proj2 (proj2 (render_skips_faint_line block_gfx faint_params sample_track 2
                         _ _ _ H1 H2))).
Defined.

(** ** Renderer: frames never fail and keep their size *)

Lemma dte_not_none (G : Gfx) (txt : string) (x y : Z) (f : font G) (color : rgb)
  (alpha scale blur_radius : Q) (al : string) (sh : shadow_cfg) (st : stroke_cfg) :
  draw_text_with_effects G txt x y f color alpha scale blur_radius al sh st <> DteNone.
Proof.
  unfold draw_text_with_effects.
  destruct (Qle_bool alpha 5); [discriminate|].
  destruct (textbbox G f txt) as [[[l tp] bw] bh]. cbv zeta.
  assert (Hw : (Z.of_N bw + 20 * 2 <=? 0)%Z = false) by (apply Z.leb_gt; lia).
  assert (Hh : (Z.of_N bh + 20 * 2 <=? 0)%Z = false) by (apply Z.leb_gt; lia).
  assert (Hw' : (Z.of_N bw + 20 * 2 <? 0)%Z = false) by (apply Z.ltb_ge; lia).
  assert (Hh' : (Z.of_N bh + 20 * 2 <? 0)%Z = false) by (apply Z.ltb_ge; lia).
  rewrite Hw, Hh. simpl orb. unfold image_new. rewrite Hw', Hh'. simpl orb.
  discriminate.
Qed.

Lemma draw_line_ok (G : Gfx) (p : params) (fs : fonts G) (img : image)
  (ld : line_draw) :
  exists img', draw_line G p fs img ld = Ok img' /\
               iw img' = iw img /\ ih img' = ih img.
Proof.
  unfold draw_line.
  pose proof (dte_not_none G (ld_text ld) (header_x p) (ld_y ld) (lyric_font G fs)
                (font_color p) (ld_alpha ld) (ld_scale ld) (ld_blur ld) (align p)
                (shadow p) (stroke p)) as Hn.
  destruct (draw_text_with_effects _ _ _ _ _ _ _ _ _ _ _ _); [| contradiction |].
  - exists img. auto.
  - eexists. split; [reflexivity|]. simpl. auto.
Qed.

Lemma draw_lines_ok (G : Gfx) (p : params) (fs : fonts G) (plan : list line_draw) :
  forall img, exists img', draw_lines G p fs img plan = Ok img' /\
                           iw img' = iw img /\ ih img' = ih img.
Proof.
  induction plan as [|ld rest IH]; intros img; simpl.
  - exists img. auto.
  - destruct (draw_line_ok G p fs img ld) as (img1 & -> & H1 & H2). simpl.
    destruct (IH img1) as (img2 & -> & H3 & H4).
    exists img2. split; [reflexivity|]. split; congruence.
Qed.

Lemma render_ok (G : Gfx) (p : params) (lyrics : list lyric) (t : Q) :
  (0 <= width p)%Z -> (0 <= height p)%Z ->
  exists img, render G p lyrics t = Ok img /\ iw img = width p /\ ih img = height p.
Proof.
  intros Hw Hh. unfold render, render_from_plan, image_new.
  assert (E : ((width p <? 0)%Z || (height p <? 0)%Z) = false).
  { apply orb_false_iff. split; apply Z.ltb_ge; assumption. }
  rewrite E. simpl.
  destruct (draw_lines_ok G p (load_fonts G p) (render_plan p lyrics t)
              (draw_header G p (load_fonts G p) (mkImage (width p) (height p)
                 (fun _ _ => transparent)))) as (img & H & H1 & H2).
  exists img. split; [exact H|]. simpl in H1, H2. auto.
Qed.

Lemma length_flat_map_const {A B : Type} (f : A -> list B) (c : nat) (l : list A) :
  (forall x, length (f x) = c) -> length (flat_map f l) = (length l * c)%nat.
Proof.
  intros Hf. induction l as [|x l IH]; simpl; [reflexivity|].
  rewrite length_app, Hf, IH. reflexivity.
Qed.

Lemma tobytes_length (im : image) :
  (0 <= iw im)%Z -> (0 <= ih im)%Z ->
  Z.of_nat (length (tobytes im)) = (iw im * ih im * 4)%Z.
Proof.
  intros Hw Hh. unfold tobytes.
  rewrite (length_flat_map_const _ (Z.to_nat (iw im) * 4)).
  - unfold zrange. rewrite length_map, length_seq. rewrite !Z.sub_0_r. lia.
  - intros y. rewrite (length_flat_map_const _ 4).
    + unfold zrange. rewrite length_map, length_seq, Z.sub_0_r. reflexivity.
    + intros x. unfold rgba_bytes. destruct (px im x y) as [[[r g] b] a]. reflexivity.
Qed.

(** ** Export pipeline *)

Lemma writes_app (a b : list event) : writes (a ++ b) = writes a ++ writes b.
Proof.
  induction a as [|e a IH]; simpl; [reflexivity|].
  destruct e; simpl; rewrite ?IH; reflexivity.
Qed.

(** The bytes of frame [i], as [render] produces them. *)
Lemma export_loop_all_frames (G : Gfx) (p : params) (lyrics : list lyric)
  (env : export_env) (total : Z) :
  (0 <= width p)%Z -> (0 <= height p)%Z ->
  (forall i, is_running env i = true) -> (forall i, write_ok env i = true) ->
  forall idxs, exists evs,
    export_loop G p lyrics env total idxs = (evs, LoopDone) /\
    writes evs = map (fun i => match render G p lyrics (Z.of_nat i # 30) with
                               | Ok im => tobytes im
                               | Exc _ => []
                               end) idxs.
Proof.
  intros Hw Hh Hrun Hwr idxs. induction idxs as [|i rest IH]; simpl.
  - exists []. auto.
  - rewrite Hrun. simpl negb. cbv iota.
    destruct (render_ok G p lyrics (Z.of_nat i # 30) Hw Hh) as (img & Hr & _).
    rewrite Hr, Hwr. simpl negb. cbv iota.
    destruct IH as (evs & -> & Hev).
    eexists. split; [reflexivity|].
    simpl. rewrite writes_app, Hev.
    destruct (Z.of_nat i mod 10 =? 0)%Z; reflexivity.
Qed.

Lemma py_round_Z (z : Z) : py_round (inject_Z z) = z.
Proof.
  unfold py_round. rewrite Qfloor_Z.
  destruct (Qlt_le_dec (inject_Z z - inject_Z z) (1 # 2)) as [_|H]; [reflexivity|].
  exfalso. unfold Qminus in H. rewrite Qplus_opp_r in H.
  apply (Qlt_not_le 0 (1 # 2)); [reflexivity|exact H].
Qed.

(** Claim C2: an export job that is not cancelled and whose encoder
    starts and accepts every write writes exactly [round(D*30)] frames for
    a duration of [D] seconds (the [QSpinBox] gives an integer [D]); frame
    [i] is the frame [render] produces at [t = i/30], and each written
    frame is [width*height*4] bytes. *)
Theorem export_frame_count (G : Gfx) (p : params) (lyrics : list lyric)
  (env : export_env) :
  (0 <= duration p)%Z -> (0 <= width p)%Z -> (0 <= height p)%Z ->
  launch_ok env = true ->
  (forall i, is_running env i = true) -> (forall i, write_ok env i = true) ->
  let tr := export_run G p lyrics env in
  length (writes tr) = Z.to_nat (py_round (inject_Z (duration p) * inject_Z fps)) /\
  forall i, (i < length (writes tr))%nat ->
    exists img, render G p lyrics (Z.of_nat i # 30) = Ok img /\
      nth_error (writes tr) i = Some (tobytes img) /\
      Z.of_nat (length (tobytes img)) = (width p * height p * 4)%Z.
Proof.
  intros Hd Hw Hh Hl Hrun Hwr tr.
  rewrite <- inject_Z_mult, py_round_Z.
  destruct (export_loop_all_frames G p lyrics env (duration p * fps) Hw Hh Hrun Hwr
              (seq 0 (Z.to_nat (duration p * fps)))) as (evs & Hloop & Hev).
  assert (Htr : writes tr = writes evs).
  { unfold tr, export_run. rewrite Hl. simpl negb. cbv iota. rewrite Hloop.
    rewrite writes_app. simpl. destruct (negb (returncode env =? 0)%Z);
    rewrite app_nil_r; reflexivity. }
  rewrite Htr, Hev, length_map, length_seq. split; [reflexivity|].
  intros i Hi.
  destruct (render_ok G p lyrics (Z.of_nat i # 30) Hw Hh) as (img & Hr & H1 & H2).
  exists img. split; [exact Hr|]. split.
  - rewrite nth_error_map, nth_error_seq by exact Hi.
    replace (Nat.ltb i _) with true by (symmetry; apply Nat.ltb_lt; exact Hi).
    simpl. rewrite Hr. reflexivity.
  - rewrite tobytes_length by lia. rewrite H1, H2. reflexivity.
Qed.

Lemma no_terminal_signal_app (a b : list event) :
  no_terminal_signal (a ++ b) = no_terminal_signal a && no_terminal_signal b.
Proof. unfold no_terminal_signal. apply forallb_app. Qed.

Lemma export_loop_cancel (G : Gfx) (p : params) (lyrics : list lyric)
  (env : export_env) (total : Z) (k : nat) :
  (0 <= width p)%Z -> (0 <= height p)%Z ->
  (forall i, (k <= i)%nat -> is_running env i = false) ->
  (forall i, (i < k)%nat -> write_ok env i = true) ->
  forall n s, (s <= k < s + n)%nat ->
  exists evs,
    export_loop G p lyrics env total (seq s n) = (evs ++ [EvClose; EvWait], LoopCancelled) /\
    (length (writes evs) <= k - s)%nat /\
    no_terminal_signal evs = true.
Proof.
  intros Hw Hh Hstop Hwr n. induction n as [|n IH]; intros s Hs; [lia|].
  simpl seq. cbn [export_loop].
  destruct (is_running env s) eqn:Er.
  - assert (Hsk : (s < k)%nat).
    { destruct (Nat.lt_ge_cases s k) as [H|H]; [exact H|].
      rewrite (Hstop s H) in Er. discriminate. }
    simpl negb. cbv iota.
    destruct (render_ok G p lyrics (Z.of_nat s # 30) Hw Hh) as (img & Hr & _).
    rewrite Hr, (Hwr s Hsk). simpl negb. cbv iota.
    destruct (IH (S s) ltac:(lia)) as (evs & -> & Hlen & Hnt).
    eexists. split.
    + rewrite app_comm_cons, app_assoc. reflexivity.
    + simpl. rewrite writes_app.
      destruct (Z.of_nat s mod 10 =? 0)%Z; simpl; (split; [lia|exact Hnt]).
  - exists []. split; [reflexivity|]. simpl. split; [lia|reflexivity].
Qed.

(** Claim C8: when [stop()] has set the flag before the loop starts frame
    [k] (the loop reaching frame [k], so the frames before it were
    written), at most [k] frames are written in all; the run ends by
    closing the pipe's write end and waiting for the encoder, and emits
    neither [finished_signal] nor [error_signal]. *)
Theorem export_cancel_before_frame (G : Gfx) (p : params) (lyrics : list lyric)
  (env : export_env) (k : nat) :
  (0 <= width p)%Z -> (0 <= height p)%Z -> launch_ok env = true ->
  (k < Z.to_nat (duration p * fps))%nat ->
  (forall i, (k <= i)%nat -> is_running env i = false) ->
  (forall i, (i < k)%nat -> write_ok env i = true) ->
  let tr := export_run G p lyrics env in
  (length (writes tr) <= k)%nat /\
  (exists pre, tr = pre ++ [EvClose; EvWait]) /\
  no_terminal_signal tr = true.
Proof.
  intros Hw Hh Hl Hk Hstop Hwr tr.
  destruct (export_loop_cancel G p lyrics env (duration p * fps) k Hw Hh Hstop Hwr
              (Z.to_nat (duration p * fps)) 0 ltac:(lia)) as (evs & Hloop & Hlen & Hnt).
  assert (Htr : tr = evs ++ [EvClose; EvWait]).
  { unfold tr, export_run. rewrite Hl. simpl negb. cbv iota. rewrite Hloop. reflexivity. }
  rewrite Htr. split; [|split].
  - rewrite writes_app. simpl. rewrite app_nil_r. lia.
  - eexists. reflexivity.
  - rewrite no_terminal_signal_app, Hnt. reflexivity.
Qed.

(** Witness of C8. *)
Lemma export_cancel_before_frame_witness :
  (12 < Z.to_nat (duration sample_params * fps))%nat /\
  (length (writes (export_run block_gfx sample_params sample_track stop_at_12)) <= 12)%nat.
Proof.
  assert (Hk : (12 < Z.to_nat (duration sample_params * fps))%nat) by (vm_compute; lia).
  split; [exact Hk|].
  refine (proj1 (export_cancel_before_frame block_gfx sample_params sample_track
                   stop_at_12 12 _ _ eq_refl Hk _ _)).
  - vm_compute. discriminate.
  - vm_compute. discriminate.
  - intros i Hi. simpl. apply Nat.ltb_ge. exact Hi.
  - intros i _. reflexivity.
Defined.

(** Witness of C2. *)
Lemma export_frame_count_witness :
  (0 <= duration sample_params)%Z /\
  length (writes (export_run block_gfx sample_params sample_track always_running)) =
    Z.to_nat (py_round (inject_Z (duration sample_params) * inject_Z fps)).
Proof.
  assert (Hd : (0 <= duration sample_params)%Z) by (vm_compute; discriminate).
  split; [exact Hd|].
  refine (proj1 (export_frame_count block_gfx sample_params sample_track
                   always_running Hd _ _ eq_refl _ _)).
  - vm_compute. discriminate.
  - vm_compute. discriminate.
  - intros i. reflexivity.
  - intros i. reflexivity.
Defined.


Lemma in_zrange (a b i : Z) : In i (zrange a b) <-> (a <= i < b)%Z.
Proof.
  unfold zrange. rewrite in_map_iff. split.
  - intros (k & <- & Hk). apply in_seq in Hk. lia.
  - intros H. exists (Z.to_nat (i - a)). split; [lia|]. apply in_seq. lia.
Qed.

Lemma current_index_from_range (t : Q) : forall (l : list lyric) (i idx : Z),
  current_index_from l t i idx = idx \/
  (i <= current_index_from l t i idx < i + Z.of_nat (length l))%Z.
Proof.
  induction l as [|x rest IH]; intros i idx; simpl; [left; reflexivity|].
  destruct (Qle_bool (time x) t); [|left; reflexivity].
  right. destruct (IH (i + 1)%Z i) as [-> | H]; lia.
Qed.

Lemma get_current_line_index_range (lyrics : list lyric) (t : Q) :
  (-1 <= get_current_line_index lyrics t < Z.of_nat (length lyrics))%Z.
Proof.
  unfold get_current_line_index.
  destruct (current_index_from_range t lyrics 0 (-1)) as [-> | H]; lia.
Qed.

(** Membership in [render_list] *)
Lemma render_list_in (curr n vl idx dist : Z) :
  (-1 <= curr < n)%Z ->
  In (idx, dist) (render_list curr n vl) <->
  (idx = curr /\ dist = 0%Z) \/
  (idx = curr + dist /\ 1 <= Z.abs dist <= vl / 2 + 1 /\
   0 <= idx /\ idx < n)%Z.
Proof.
  intros Hc. unfold render_list. simpl. rewrite in_flat_map. split.
  - intros [H|(i & Hi & H)].
    + left. injection H as <- <-. auto.
    + right. apply in_zrange in Hi. apply in_app_or in H as [H|H].
      * destruct (curr - i >=? 0)%Z eqn:E; [|contradiction].
        destruct H as [H|[]]. injection H as <- <-. lia.
      * destruct (curr + i <? n)%Z eqn:E; [|contradiction].
        destruct H as [H|[]]. injection H as <- <-. lia.
  - intros [[-> ->]|(-> & Hd & H0 & Hn)]; [left; reflexivity|right].
    exists (Z.abs dist). split; [apply in_zrange; lia|].
    apply in_or_app. destruct (Z.abs_spec dist) as [[Hs ->]|[Hs ->]].
    + right. replace (curr + dist <? n)%Z with true by lia. left. reflexivity.
    + left. replace (curr - - dist >=? 0)%Z with true by lia.
      left. f_equal; lia.
Qed.

Lemma render_plan_idx_in (p : params) (lyrics : list lyric) (t : Q) (j : Z) :
  let curr := get_current_line_index lyrics t in
  In j (map ld_idx (render_plan p lyrics t)) <->
  exists dist, In (j, dist) (render_list curr (Z.of_nat (length lyrics)) (visible_lines p)) /\
    (0 <= j < Z.of_nat (length lyrics))%Z.
Proof.
  intros curr. unfold render_plan. fold curr. rewrite in_map_iff. split.
  - intros (ld & <- & H). apply in_flat_map in H as ([idx dist] & Hin & H).
    destruct ((idx <? 0)%Z || (Z.of_nat (length lyrics) <=? idx)%Z) eqn:E; [contradiction|].
    destruct (nth_error lyrics (Z.to_nat idx)) as [l|] eqn:El; [|contradiction].
    destruct H as [<-|[]]. exists dist. split; [exact Hin|]. simpl. lia.
  - intros (dist & Hin & Hj).
    destruct (nth_error lyrics (Z.to_nat j)) as [l|] eqn:El.
    + exists (line_params p (text l) j dist). split; [reflexivity|].
      apply in_flat_map. exists (j, dist). split; [exact Hin|].
      replace ((j <? 0)%Z || (Z.of_nat (length lyrics) <=? j)%Z) with false by lia.
      rewrite El. left. reflexivity.
    + apply nth_error_None in El. lia.
Qed.

(** ** Renderer: which lines a frame draws *)

(** [render] draws line [j] exactly when [j] is a valid index and
    [|j - curr_idx| <= visible_lines // 2 + 1], for the active index
    [curr_idx] (also when it is -1); [visible_lines] comes from a spin box
    with minimum 0. *)
Theorem render_window (p : params) (lyrics : list lyric) (t : Q) (j : Z) :
  (0 <= visible_lines p)%Z ->
  In j (map ld_idx (render_plan p lyrics t)) <->
  (0 <= j < Z.of_nat (length lyrics) /\
   Z.abs (j - get_current_line_index lyrics t) <= visible_lines p / 2 + 1)%Z.
Proof.
  intros Hvl. rewrite render_plan_idx_in.
  pose proof (get_current_line_index_range lyrics t) as Hr.
  set (curr := get_current_line_index lyrics t) in *.
  assert (0 <= visible_lines p / 2)%Z by (apply Z.div_pos; lia).
  split.
  - intros (dist & Hin & Hj). split; [exact Hj|].
    apply render_list_in in Hin; [|exact Hr]; destruct Hin as [[-> ->]|(-> & Hd & _)]; lia.
  - intros [Hj Hd]. destruct (Z.eq_dec j curr) as [->|Hne].
    + exists 0%Z. split; [apply render_list_in; [exact Hr|left; auto]|exact Hj].
    + exists (j - curr)%Z. split; [|exact Hj].
      apply render_list_in; [exact Hr|]. right. lia.
Qed.

Lemma map_flat_map' {A B C : Type} (f : B -> C) (g : A -> list B) (l : list A) :
  map f (flat_map g l) = flat_map (fun x => map f (g x)) l.
Proof. induction l as [|x l IH]; simpl; [reflexivity|]. rewrite map_app, IH. reflexivity. Qed.

Lemma NoDup_levels (g : Z -> list Z) (c : Z) :
  (forall i, (1 <= i)%Z -> NoDup (g i)) ->
  (forall i x, (1 <= i)%Z -> In x (g i) -> Z.abs (x - c) = i) ->
  forall m a, (1 <= a)%Z ->
  NoDup (flat_map g (map (fun k => a + Z.of_nat k)%Z (seq 0 m))) /\
  forall x, In x (flat_map g (map (fun k => a + Z.of_nat k)%Z (seq 0 m))) ->
    (a <= Z.abs (x - c))%Z.
Proof.
  intros Hnd Hlev m. induction m as [|m IH]; intros a Ha.
  - simpl. split; [constructor|intros x []].
  - assert (Hs : map (fun k => a + Z.of_nat k)%Z (seq 0 (S m)) =
                 a :: map (fun k => (a + 1) + Z.of_nat k)%Z (seq 0 m)).
    { simpl. f_equal; [lia|]. rewrite <- seq_shift, map_map.
      apply map_ext. intros k. lia. }
    rewrite Hs. simpl. destruct (IH (a + 1)%Z ltac:(lia)) as [Hn Hge].
    split.
    + apply NoDup_app; [apply Hnd; exact Ha|exact Hn|].
      intros x Hx Hx'. apply Hlev in Hx; [|exact Ha]. apply Hge in Hx'. lia.
    + intros x Hx. apply in_app_or in Hx as [Hx|Hx].
      * apply Hlev in Hx; [|exact Ha]. lia.
      * apply Hge in Hx. lia.
Qed.

Lemma render_list_fst_NoDup (curr n vl : Z) :
  NoDup (map fst (render_list curr n vl)).
Proof.
  unfold render_list. simpl. rewrite map_flat_map'. unfold zrange.
  set (g := fun i : Z => map fst
              ((if curr - i >=? 0 then [(curr - i, - i)] else [])
               ++ (if curr + i <? n then [(curr + i, i)] else []))%Z).
  assert (Hnd : forall i, (1 <= i)%Z -> NoDup (g i)).
  { intros i Hi. unfold g. destruct (curr - i >=? 0)%Z, (curr + i <? n)%Z; simpl;
    repeat constructor; simpl; try tauto; intros [H|[]]; lia. }
  assert (Hlev : forall i x, (1 <= i)%Z -> In x (g i) -> Z.abs (x - curr) = i).
  { intros i x Hi Hx. unfold g in Hx. rewrite map_app in Hx. apply in_app_or in Hx.
    destruct (curr - i >=? 0)%Z eqn:E1, (curr + i <? n)%Z eqn:E2; simpl in Hx;
    (destruct Hx as [[H|[]]|[H|[]]] || destruct Hx as [[H|[]]|[]] ||
     destruct Hx as [[]|[H|[]]] || destruct Hx as [[]|[]]); subst x; lia. }
  destruct (NoDup_levels g curr Hnd Hlev (Z.to_nat (vl / 2 + 2 - 1)) 1 ltac:(lia))
    as [Hn Hge].
  constructor; [|exact Hn].
  intros H. apply Hge in H. lia.
Qed.

Lemma render_plan_idx_filter (p : params) (lyrics : list lyric) (t : Q) :
  map ld_idx (render_plan p lyrics t) =
  filter (fun j => negb ((j <? 0)%Z || (Z.of_nat (length lyrics) <=? j)%Z))
    (map fst (render_list (get_current_line_index lyrics t)
                (Z.of_nat (length lyrics)) (visible_lines p))).
Proof.
  unfold render_plan.
  induction (render_list (get_current_line_index lyrics t)
               (Z.of_nat (length lyrics)) (visible_lines p)) as [|[idx dist] L IH];
    [reflexivity|].
  simpl. rewrite map_app, IH.
  destruct ((idx <? 0)%Z || (Z.of_nat (length lyrics) <=? idx)%Z) eqn:E; simpl;
    [reflexivity|].
  destruct (nth_error lyrics (Z.to_nat idx)) eqn:El; [reflexivity|].
  apply nth_error_None in El. lia.
Qed.

(** [render] draws no lyric line twice in one frame. *)
Theorem render_plan_no_duplicates (p : params) (lyrics : list lyric) (t : Q) :
  NoDup (map ld_idx (render_plan p lyrics t)).
Proof.
  rewrite render_plan_idx_filter. apply NoDup_filter. apply render_list_fst_NoDup.
Qed.

(** ** Active line over time *)

Lemma sorted_nth (l : list lyric) : StronglySorted time_le l ->
  forall j j' a b, (j < j')%nat -> nth_error l j = Some a -> nth_error l j' = Some b ->
  time a <= time b.
Proof.
  induction 1 as [|x rest Hs IH Hall]; intros j j' a b Hj Ha Hb.
  - destruct j; discriminate.
  - destruct j' as [|j']; [lia|]. simpl in Hb.
    destruct j as [|j]; simpl in Ha.
    + injection Ha as <-. rewrite Forall_forall in Hall.
      apply Hall. eapply nth_error_In. exact Hb.
    + apply (IH j j'); [lia|exact Ha|exact Hb].
Qed.

Lemma current_index_ge (lyrics : list lyric) (t : Q) (k : nat) (x : lyric) :
  Sorted time_le lyrics -> nth_error lyrics k = Some x -> time x <= t ->
  (Z.of_nat k <= get_current_line_index lyrics t)%Z.
Proof.
  intros Hs Hx Ht. unfold get_current_line_index.
  destruct (current_index_from_spec t lyrics 0 (-1) (sorted_strongly _ Hs))
    as [[_ Hgt] | (k' & y & -> & Hy & Hyt & Hgt)].
  - specialize (Hgt k x Hx). exfalso. apply (Qlt_not_le _ _ Hgt Ht).
  - destruct (Nat.le_gt_cases k k') as [H|H]; [lia|].
    specialize (Hgt k x H Hx). exfalso. apply (Qlt_not_le _ _ Hgt Ht).
Qed.

Lemma current_index_lt (lyrics : list lyric) (t : Q) (k : nat) (y : lyric) :
  Sorted time_le lyrics -> nth_error lyrics k = Some y -> t < time y ->
  (get_current_line_index lyrics t < Z.of_nat k)%Z.
Proof.
  intros Hs Hy Ht. unfold get_current_line_index.
  destruct (current_index_from_spec t lyrics 0 (-1) (sorted_strongly _ Hs))
    as [[-> _] | (k' & x & -> & Hx & Hxt & _)]; [lia|].
  destruct (Nat.lt_ge_cases k' k) as [H|H]; [lia|exfalso].
  destruct (Nat.eq_dec k k') as [<-|Hne].
  - rewrite Hy in Hx. injection Hx as <-. apply (Qlt_not_le _ _ Ht Hxt).
  - assert (Hle : time y <= time x)
      by (apply (sorted_nth lyrics (sorted_strongly _ Hs) k k'); auto; lia).
    apply (Qlt_not_le _ _ Ht). eapply Qle_trans; eauto.
Qed.

Lemma current_index_mono (lyrics : list lyric) (t1 t2 : Q) :
  Sorted time_le lyrics -> t1 <= t2 ->
  (get_current_line_index lyrics t1 <= get_current_line_index lyrics t2)%Z.
Proof.
  intros Hs Ht.
  pose proof (get_current_line_index_range lyrics t2) as R2.
  unfold get_current_line_index at 1.
  destruct (current_index_from_spec t1 lyrics 0 (-1) (sorted_strongly _ Hs))
    as [[-> _] | (k & x & -> & Hx & Hxt & _)]; [lia|].
  apply (current_index_ge lyrics t2 k x Hs Hx). eapply Qle_trans; eauto.
Qed.

(** On a sorted track the active index never decreases as time goes
    on: the scroll only moves forward during playback and export. *)
Theorem current_line_index_monotone (lyrics : list lyric) (t1 t2 : Q) :
  Sorted time_le lyrics -> t1 <= t2 ->
  (get_current_line_index lyrics t1 <= get_current_line_index lyrics t2)%Z.
Proof. apply current_index_mono. Qed.

Lemma render_plan_index (p : params) (lyrics : list lyric) (t1 t2 : Q) :
  get_current_line_index lyrics t1 = get_current_line_index lyrics t2 ->
  render_plan p lyrics t1 = render_plan p lyrics t2.
Proof. intros E. unfold render_plan. rewrite E. reflexivity. Qed.

(** On a sorted track, all times from the timestamp of line [k] up to
    (excluding) that of line [k+1] render the same frame: the active line
    sits at the centre with no interpolation between lines. *)
Theorem render_constant_between_lines (G : Gfx) (p : params) (lyrics : list lyric)
  (k : nat) (x : lyric) (t1 t2 : Q) :
  Sorted time_le lyrics ->
  nth_error lyrics k = Some x -> time x <= t1 -> t1 <= t2 ->
  (forall y, nth_error lyrics (S k) = Some y -> t2 < time y) ->
  render G p lyrics t1 = render G p lyrics t2.
Proof.
  intros Hs Hx H1 H12 Hnext. unfold render. f_equal. apply render_plan_index.
  pose proof (current_index_mono lyrics t1 t2 Hs H12) as Hm.
  pose proof (current_index_ge lyrics t1 k x Hs Hx H1) as Hge.
  assert (Hle : (get_current_line_index lyrics t2 <= Z.of_nat k)%Z).
  { destruct (nth_error lyrics (S k)) as [y|] eqn:Ey.
    - pose proof (current_index_lt lyrics t2 (S k) y Hs Ey (Hnext y eq_refl)). lia.
    - apply nth_error_None in Ey. pose proof (get_current_line_index_range lyrics t2). lia. }
  lia.
Qed.

(** Before the first timestamp no line is active: every line [render]
    draws is at signed distance [idx + 1 >= 1], so the first line is drawn
    one step below the centre, faded. *)
Theorem render_before_first_line (p : params) (lyrics : list lyric) (t : Q) (e0 : lyric) :
  hd_error lyrics = Some e0 -> t < time e0 ->
  forall ld, In ld (render_plan p lyrics t) ->
    ld_dist ld = (ld_idx ld + 1)%Z /\ (1 <= ld_dist ld)%Z.
Proof.
  intros Hhd Ht ld Hin.
  assert (Hc : get_current_line_index lyrics t = (-1)%Z).
  { destruct lyrics as [|x rest]; [discriminate|]. injection Hhd as ->.
    unfold get_current_line_index. simpl.
    destruct (Qle_bool (time e0) t) eqn:E; [|reflexivity].
    apply Qle_bool_iff in E. exfalso. apply (Qlt_not_le _ _ Ht E). }
  assert (Hidx : In (ld_idx ld) (map ld_idx (render_plan p lyrics t)))
    by (apply in_map; exact Hin).
  apply render_plan_idx_in in Hidx as (_ & _ & Hb).
  destruct (render_plan_in p lyrics t ld Hin) as (idx & dist & l & Hl & _ & ->).
  apply render_list_offset in Hl. rewrite Hc in Hl. unfold line_params in *. cbn [ld_idx ld_dist] in *. lia.
Qed.

(** With nonnegative coefficients, a line further from the active line
    is never larger, never more opaque and never sharper than a nearer
    one (the active line included). *)
Theorem line_params_decay (p : params) (s1 s2 : string) (i1 i2 d1 d2 : Z) :
  0 <= scale_decay p -> 0 <= fade_decay p -> 0 <= blur_base p -> 0 <= blur_inc p ->
  (Z.abs d1 <= Z.abs d2)%Z ->
  let a := line_params p s1 i1 d1 in
  let b := line_params p s2 i2 d2 in
  ld_scale b <= ld_scale a /\ ld_alpha b <= ld_alpha a /\ ld_blur a <= ld_blur b.
Proof.
  intros Hsd Hfd Hbb Hbi Hd a b. unfold a, b, line_params, py_abs. cbn [ld_scale ld_alpha ld_blur].
  assert (Hq : inject_Z (Z.abs d1) <= inject_Z (Z.abs d2)) by (rewrite <- Zle_Qle; exact Hd).
  assert (H0 : 0 <= inject_Z (Z.abs d1)) by (change 0 with (inject_Z 0); rewrite <- Zle_Qle; lia).
  set (x1 := inject_Z (Z.abs d1)) in *. set (x2 := inject_Z (Z.abs d2)) in *.
  assert (Hs : scale_decay p * x1 <= scale_decay p * x2) by (apply Qmult_le_compat_nonneg; split; auto; apply Qle_refl).
  assert (Hf : fade_decay p * x1 <= fade_decay p * x2) by (apply Qmult_le_compat_nonneg; split; auto; apply Qle_refl).
  assert (Hb : blur_inc p * x1 <= blur_inc p * x2) by (apply Qmult_le_compat_nonneg; split; auto; apply Qle_refl).
  assert (Hf0 : 0 <= fade_decay p * x1) by (apply Qmult_le_0_compat; auto).
  assert (Hb0 : 0 <= blur_inc p * x1) by (apply Qmult_le_0_compat; auto).
  unfold py_max.
  split; [|split].
  - destruct (Qlt_le_dec (1 # 10) (1 - scale_decay p * x1));
    destruct (Qlt_le_dec (1 # 10) (1 - scale_decay p * x2)); lra.
  - destruct (d1 =? 0)%Z eqn:E1; destruct (d2 =? 0)%Z eqn:E2;
    destruct (Qlt_le_dec 0 (255 - fade_decay p * x1 * 50));
    destruct (Qlt_le_dec 0 (255 - fade_decay p * x2 * 50)); try lra;
    apply Z.eqb_eq in E2; apply Z.eqb_neq in E1; lia.
  - destruct (d1 =? 0)%Z eqn:E1; destruct (d2 =? 0)%Z eqn:E2; try lra.
    apply Z.eqb_eq in E2. apply Z.eqb_neq in E1. lia.
Qed.

(** ** Binary64 rounding: [fl] is monotone *)

Section Binary64.
Local Open Scope Z_scope.

Lemma p2_pos (e : Z) : (0 < p2 e)%Q.
Proof. apply Qpower_0_lt. reflexivity. Qed.

Lemma p2_add (a b : Z) : (p2 (a + b) == p2 a * p2 b)%Q.
Proof. apply Qpower_plus. discriminate. Qed.

Lemma p2_le (a b : Z) : a <= b -> (p2 a <= p2 b)%Q.
Proof. intros H. apply Qpower_le_compat_l; [exact H|discriminate]. Qed.

Lemma p2_lt_inv (a b : Z) : (p2 a < p2 b)%Q -> a < b.
Proof. intros H. apply (Qpower_lt_compat_l_inv (2#1)); [exact H|reflexivity]. Qed.

Lemma p2_Z (k : Z) : 0 <= k -> (p2 k == inject_Z (2 ^ k))%Q.
Proof. intros H. unfold p2. rewrite Zpower_Qpower by exact H. reflexivity. Qed.

Lemma p2_diff (a b : Z) : 0 <= a -> 0 <= b ->
  (p2 (a - b) == inject_Z (2 ^ a) / inject_Z (2 ^ b))%Q.
Proof.
  intros Ha Hb. unfold Z.sub. rewrite p2_add. unfold p2 at 2.
  rewrite Qpower_opp. fold (p2 b). rewrite p2_Z, p2_Z by assumption. reflexivity.
Qed.

Lemma Qdiv_le_cross (a b c d : Z) : 0 < b -> 0 < d -> a * d <= c * b ->
  (inject_Z a / inject_Z b <= inject_Z c / inject_Z d)%Q.
Proof.
  intros Hb Hd H.
  destruct b as [|b|b]; try lia. destruct d as [|d|d]; try lia.
  rewrite <- !Qmake_Qdiv. unfold Qle. simpl. lia.
Qed.

Lemma Qdiv_lt_cross (a b c d : Z) : 0 < b -> 0 < d -> a * d < c * b ->
  (inject_Z a / inject_Z b < inject_Z c / inject_Z d)%Q.
Proof.
  intros Hb Hd H.
  destruct b as [|b|b]; try lia. destruct d as [|d|d]; try lia.
  rewrite <- !Qmake_Qdiv. unfold Qlt. simpl. lia.
Qed.

Lemma qlog2_spec (x : Q) : (0 < x)%Q -> (p2 (qlog2 x) <= x)%Q /\ (x < p2 (qlog2 x + 1))%Q.
Proof.
  intros Hx. destruct x as [n d].
  assert (Hn : 0 < n) by (unfold Qlt in Hx; simpl in Hx; lia).
  unfold qlog2. simpl Qnum. simpl Qden.
  set (a := Z.log2 n). set (b := Z.log2 (Zpos d)).
  destruct (Z.log2_spec n Hn) as [Ha1 Ha2]. fold a in Ha1, Ha2.
  destruct (Z.log2_spec (Zpos d) ltac:(lia)) as [Hb1 Hb2]. fold b in Hb1, Hb2.
  assert (Ha : 0 <= a) by apply Z.log2_nonneg.
  assert (Hb : 0 <= b) by apply Z.log2_nonneg.
  rewrite Z.pow_succ_r in Ha2, Hb2 by assumption.
  assert (Hx' : (n # d == inject_Z n / inject_Z (Zpos d))%Q) by apply Qmake_Qdiv.
  assert (Hup : (n # d < p2 (a - b + 1))%Q).
  { rewrite Hx'. replace (a - b + 1) with ((a + 1) - b) by lia.
    rewrite p2_diff by lia. apply Qdiv_lt_cross; try lia.
    rewrite Z.pow_add_r by lia. change (2 ^ 1) with 2. nia. }
  assert (Hlo : (p2 (a - b - 1) <= n # d)%Q).
  { rewrite Hx'. replace (a - b - 1) with (a - (b + 1)) by lia.
    rewrite p2_diff by lia. apply Qdiv_le_cross; try lia.
    rewrite Z.pow_add_r by lia. change (2 ^ 1) with 2. nia. }
  destruct (Qle_bool (p2 (a - b)) (n # d)) eqn:E.
  - apply Qle_bool_iff in E. split; assumption.
  - split; [exact Hlo|]. replace (a - b - 1 + 1) with (a - b) by lia.
    apply Qnot_le_lt. intros H. apply Qle_bool_iff in H. congruence.
Qed.

Lemma qlog2_mono (x y : Q) : (0 < x)%Q -> (x <= y)%Q -> qlog2 x <= qlog2 y.
Proof.
  intros Hx Hxy.
  destruct (qlog2_spec x Hx) as [Hx1 _].
  destruct (qlog2_spec y ltac:(lra)) as [_ Hy2].
  assert (qlog2 x < qlog2 y + 1) by (apply p2_lt_inv; lra). lia.
Qed.

Lemma round_ne_bounds (z : Q) :
  round_ne z = Qfloor z \/ round_ne z = Qfloor z + 1.
Proof.
  unfold round_ne. destruct (_ ?= _)%Q; auto. destruct (Z.even (Qfloor z)); auto.
Qed.

Lemma round_ne_mono (z1 z2 : Q) : (z1 <= z2)%Q -> round_ne z1 <= round_ne z2.
Proof.
  intros H. pose proof (Qfloor_resp_le _ _ H) as Hf.
  destruct (Z.eq_dec (Qfloor z1) (Qfloor z2)) as [E|Hne].
  - unfold round_ne. rewrite E.
    set (f := Qfloor z2) in *.
    destruct (Qcompare_spec (z1 - inject_Z f) (1 # 2)) as [E1|E1|E1];
    destruct (Qcompare_spec (z2 - inject_Z f) (1 # 2)) as [E2|E2|E2];
    try (destruct (Z.even f)); try lia; exfalso; lra.
  - destruct (round_ne_bounds z1), (round_ne_bounds z2); lia.
Qed.

Lemma round_ne_int (n : Z) : round_ne (inject_Z n) = n.
Proof.
  unfold round_ne. rewrite Qfloor_Z.
  destruct (Qcompare_spec (inject_Z n - inject_Z n) (1 # 2)) as [E|E|E];
    [exfalso; lra|reflexivity|exfalso; lra].
Qed.

Lemma fl_nonneg (x : Q) : (0 <= x)%Q -> (0 <= fl x)%Q.
Proof.
  intros Hx. unfold fl. destruct (Qeq_bool x 0); [lra|].
  apply Qmult_le_0_compat; [|apply Qlt_le_weak, p2_pos].
  change 0%Q with (inject_Z 0). rewrite <- Zle_Qle.
  rewrite <- (round_ne_int 0). apply round_ne_mono.
  apply Qle_shift_div_l; [apply p2_pos|]. rewrite Qmult_0_l. exact Hx.
Qed.

Lemma Qabs_nonneg_eq (x : Q) : (0 <= x)%Q -> Qabs x = x.
Proof.
  destruct x as [n d]. unfold Qle. simpl. intros H.
  unfold Qabs. rewrite Z.abs_eq by lia. reflexivity.
Qed.

Lemma fl_mono (x y : Q) : (0 <= x)%Q -> (x <= y)%Q -> (fl x <= fl y)%Q.
Proof.
  intros Hx Hxy.
  destruct (Qeq_bool x 0) eqn:Ex.
  { unfold fl at 1. rewrite Ex. apply fl_nonneg. lra. }
  assert (Hx0 : (0 < x)%Q).
  { destruct (Qlt_le_dec 0 x) as [?|Hle]; [assumption|].
    exfalso. assert (x == 0)%Q by lra. apply Qeq_bool_iff in H. congruence. }
  assert (Ey : Qeq_bool y 0 = false).
  { destruct (Qeq_bool y 0) eqn:E; [|reflexivity]. apply Qeq_bool_iff in E. lra. }
  unfold fl. rewrite Ex, Ey.
  unfold fexp. rewrite !Qabs_nonneg_eq by lra.
  pose proof (qlog2_mono x y Hx0 Hxy) as Hl.
  destruct (qlog2_spec x Hx0) as [Hx1 Hx2].
  destruct (qlog2_spec y ltac:(lra)) as [Hy1 Hy2].
  set (ex := Z.max (qlog2 x - 52) (-1074)).
  set (ey := Z.max (qlog2 y - 52) (-1074)).
  assert (Hpx := p2_pos ex). assert (Hpy := p2_pos ey).
  destruct (Z.eq_dec ex ey) as [E|Hne].
  - rewrite <- E. apply Qmult_le_compat_r; [|lra].
    rewrite <- Zle_Qle. apply round_ne_mono.
    apply Qmult_le_compat_r; [exact Hxy|]. apply Qinv_le_0_compat. lra.
  - assert (Hey : ey = qlog2 y - 52) by lia.
    assert (Hlt : ex + 53 <= ey + 52) by lia.
    (* the rounded x is at most 2^(ex+53) *)
    assert (Rx : round_ne (x / p2 ex) <= 2 ^ 53).
    { rewrite <- (round_ne_int (2 ^ 53)). apply round_ne_mono.
      apply Qle_shift_div_r; [exact Hpx|].
      apply Qlt_le_weak. apply Qlt_le_trans with (p2 (qlog2 x + 1)); [exact Hx2|].
      rewrite <- p2_Z by lia. rewrite <- p2_add. apply p2_le. lia. }
    assert (Ry : 2 ^ 52 <= round_ne (y / p2 ey)).
    { rewrite <- (round_ne_int (2 ^ 52)). apply round_ne_mono.
      apply Qle_shift_div_l; [exact Hpy|].
      apply Qle_trans with (p2 (qlog2 y)); [|exact Hy1].
      rewrite <- p2_Z by lia. rewrite <- p2_add. apply p2_le. lia. }
    apply Qle_trans with (inject_Z (2 ^ 53) * p2 ex)%Q.
    + apply Qmult_le_compat_r; [|lra]. rewrite <- Zle_Qle. exact Rx.
    + apply Qle_trans with (inject_Z (2 ^ 52) * p2 ey)%Q.
      * rewrite <- !p2_Z by lia. rewrite <- !p2_add. apply p2_le. lia.
      * apply Qmult_le_compat_r; [|lra]. rewrite <- Zle_Qle. exact Ry.
Qed.

Lemma round_ne_comp (a b : Q) : (a == b)%Q -> round_ne a = round_ne b.
Proof.
  intros H. unfold round_ne. rewrite (Qfloor_comp a b H).
  set (f := Qfloor b). assert (E : (a - inject_Z f == b - inject_Z f)%Q) by (rewrite H; reflexivity).
  rewrite E. reflexivity.
Qed.

Lemma fl_exact (x : Q) (m : Z) :
  ~ (x == 0)%Q -> (x / p2 (fexp x) == inject_Z m)%Q -> (fl x == x)%Q.
Proof.
  intros Hx Hm. unfold fl.
  destruct (Qeq_bool x 0) eqn:E; [apply Qeq_bool_iff in E; contradiction|].
  rewrite (round_ne_comp _ _ Hm), round_ne_int. rewrite <- Hm.
  assert (Hp : ~ (p2 (fexp x) == 0)%Q) by (pose proof (p2_pos (fexp x)); intro; lra).
  field. exact Hp.
Qed.

(** Integers up to [2 ^ 53] are floats. *)
Lemma fl_int (n : Z) : 0 <= n <= 2 ^ 53 -> (fl (inject_Z n) == inject_Z n)%Q.
Proof.
  intros Hn. destruct (Z.eq_dec n 0) as [->|Hn0]; [reflexivity|].
  assert (Hpos : (0 < inject_Z n)%Q) by (change 0%Q with (inject_Z 0); rewrite <- Zlt_Qlt; lia).
  destruct (qlog2_spec _ Hpos) as [H1 H2].
  set (q := qlog2 (inject_Z n)) in *.
  assert (Hq0 : 0 <= q).
  { assert (0 < q + 1); [|lia]. apply p2_lt_inv.
    apply Qle_lt_trans with (inject_Z n); [|exact H2].
    change (p2 0) with (inject_Z 1). rewrite <- Zle_Qle. lia. }
  assert (Hq53 : q <= 53).
  { destruct (Z.le_gt_cases q 53) as [?|Hgt]; [assumption|exfalso].
    pose proof (p2_le 54 q ltac:(lia)) as H54. rewrite p2_Z in H54 by lia.
    assert (Hle : (inject_Z (2 ^ 54) <= inject_Z n)%Q) by lra.
    rewrite <- Zle_Qle in Hle. change (2 ^ 54) with (2 * 2 ^ 53) in Hle. lia. }
  assert (Hfe : fexp (inject_Z n) = q - 52).
  { unfold fexp. rewrite Qabs_nonneg_eq by lra. fold q. lia. }
  assert (Hne : ~ (inject_Z n == 0)%Q) by (intro; lra).
  destruct (Z.eq_dec q 53) as [Eq|Hlt].
  - assert (En : n = 2 ^ 53).
    { rewrite Eq, p2_Z in H1 by lia. rewrite <- Zle_Qle in H1. lia. }
    apply (fl_exact _ (2 ^ 52)); [exact Hne|]. rewrite Hfe, Eq, En. reflexivity.
  - apply (fl_exact _ (n * 2 ^ (52 - q))); [exact Hne|]. rewrite Hfe.
    rewrite inject_Z_mult, <- p2_Z by lia.
    replace (52 - q) with (- (q - 52)) by lia. unfold p2 at 2. rewrite Qpower_opp.
    reflexivity.
Qed.

End Binary64.

(** ** Export: progress, completion and a broken pipe *)

Lemma progress_values_app (a b : list event) :
  progress_values (a ++ b) = progress_values a ++ progress_values b.
Proof.
  induction a as [|e a IH]; simpl; [reflexivity|].
  destruct e; simpl; rewrite ?IH; reflexivity.
Qed.

Lemma export_loop_done (G : Gfx) (p : params) (lyrics : list lyric)
  (env : export_env) (total : Z) :
  (0 <= width p)%Z -> (0 <= height p)%Z ->
  (forall i, is_running env i = true) -> (forall i, write_ok env i = true) ->
  forall idxs, exists evs,
    export_loop G p lyrics env total idxs = (evs, LoopDone) /\
    progress_values evs =
      map (progress_pct total) (filter (fun i => Z.of_nat i mod 10 =? 0)%Z idxs) /\
    no_terminal_signal evs = true.
Proof.
  intros Hw Hh Hrun Hwr idxs. induction idxs as [|i rest IH]; simpl.
  - exists []. auto.
  - rewrite Hrun. simpl negb. cbv iota.
    destruct (render_ok G p lyrics (Z.of_nat i # 30) Hw Hh) as (img & Hr & _).
    rewrite Hr, Hwr. simpl negb. cbv iota.
    destruct IH as (evs & -> & Hpv & Hnt).
    eexists. split; [reflexivity|]. unfold no_terminal_signal in *.
    destruct (Z.of_nat i mod 10 =? 0)%Z; simpl; rewrite Hpv; auto.
Qed.

Lemma py_int_range (q : Q) : 0 <= q -> q < 100 -> (0 <= py_int q <= 99)%Z.
Proof.
  intros Hq0 Hq1. unfold py_int.
  replace (Qle_bool 0 q) with true by (symmetry; apply Qle_bool_iff; exact Hq0).
  split.
  - rewrite <- (Qfloor_Z 0). apply Qfloor_resp_le. exact Hq0.
  - assert (Hf : inject_Z (Qfloor q) < inject_Z 100) by (eapply Qle_lt_trans; [apply Qfloor_le|exact Hq1]).
    rewrite <- Zlt_Qlt in Hf. lia.
Qed.

Lemma py_int_mono_nonneg (a b : Q) : 0 <= a -> a <= b -> (py_int a <= py_int b)%Z.
Proof.
  intros Ha Hab. unfold py_int.
  replace (Qle_bool 0 a) with true by (symmetry; apply Qle_bool_iff; exact Ha).
  replace (Qle_bool 0 b) with true by (symmetry; apply Qle_bool_iff; lra).
  apply Qfloor_resp_le. exact Hab.
Qed.

Lemma progress_ratio_nonneg (total : Z) (i : nat) : (0 < total)%Z ->
  0 <= inject_Z (Z.of_nat i) / inject_Z total.
Proof.
  intros Ht. apply Qle_shift_div_l.
  - change 0 with (inject_Z 0). rewrite <- Zlt_Qlt. exact Ht.
  - rewrite Qmult_0_l. change 0 with (inject_Z 0). rewrite <- Zle_Qle. lia.
Qed.

(** With at most [2 ^ 17] frames, [i / total_frames] rounds to at most
    [1 - 2 ^ -17], whose product by 100 rounds below 100. *)
Lemma progress_pct_range (total : Z) (i : nat) :
  (Z.of_nat i < total)%Z -> (total <= 131072)%Z -> (0 <= progress_pct total i <= 99)%Z.
Proof.
  intros Hi Hb. unfold progress_pct.
  assert (Ht : (0 < total)%Z) by lia.
  set (x := inject_Z (Z.of_nat i) / inject_Z total).
  set (c := inject_Z 131071 / inject_Z 131072).
  assert (Hx0 : 0 <= x) by (apply progress_ratio_nonneg; exact Ht).
  assert (Hxc : x <= c) by (apply Qdiv_le_cross; lia).
  assert (H1 : fl x <= fl c) by (apply fl_mono; assumption).
  assert (Hf0 : 0 <= fl x * 100) by (apply Qmult_le_0_compat; [apply fl_nonneg, Hx0|discriminate]).
  assert (H2 : fl (fl x * 100) <= fl (fl c * 100)).
  { apply fl_mono; [exact Hf0|]. apply Qmult_le_compat_r; [exact H1|discriminate]. }
  assert (H3 : fl (fl c * 100) < 100) by (vm_compute; reflexivity).
  apply py_int_range; [apply fl_nonneg, Hf0|lra].
Qed.

Lemma progress_pct_mono (total : Z) (i j : nat) :
  (0 < total)%Z -> (i <= j)%nat -> (progress_pct total i <= progress_pct total j)%Z.
Proof.
  intros Ht Hij. unfold progress_pct.
  assert (Htq : 0 < inject_Z total) by (change 0 with (inject_Z 0); rewrite <- Zlt_Qlt; lia).
  assert (Hle : inject_Z (Z.of_nat i) <= inject_Z (Z.of_nat j)) by (rewrite <- Zle_Qle; lia).
  pose proof (progress_ratio_nonneg total i Ht) as Hi0.
  assert (Hx : inject_Z (Z.of_nat i) / inject_Z total <= inject_Z (Z.of_nat j) / inject_Z total).
  { unfold Qdiv. apply Qmult_le_compat_r; [exact Hle|].
    apply Qlt_le_weak. apply Qinv_lt_0_compat. exact Htq. }
  assert (Hf0 : 0 <= fl (inject_Z (Z.of_nat i) / inject_Z total) * 100)
    by (apply Qmult_le_0_compat; [apply fl_nonneg, Hi0|discriminate]).
  apply py_int_mono_nonneg; [apply fl_nonneg, Hf0|].
  apply fl_mono; [exact Hf0|]. apply Qmult_le_compat_r; [|discriminate].
  apply fl_mono; assumption.
Qed.

Lemma filter_seq_sorted (total : Z) (f : nat -> bool) : (0 < total)%Z ->
  forall n s, StronglySorted Z.le (map (progress_pct total) (filter f (seq s n))).
Proof.
  intros Ht n. induction n as [|n IH]; intros s; simpl; [constructor|].
  destruct (f s); simpl; [|apply IH].
  constructor; [apply IH|]. apply Forall_forall. intros v Hv.
  apply in_map_iff in Hv as (j & <- & Hj). apply filter_In in Hj as [Hj _].
  apply in_seq in Hj. apply progress_pct_mono; [exact Ht|lia].
Qed.

(** An export that is not cancelled and whose writes succeed reports
    progress [int((i / total_frames) * 100)], both operations rounded to
    binary64, at frames [0, 10, 20, ...] and nowhere else; for a duration
    in the range 1 .. 3600 of [spin_dur], every value is in [0 .. 99] and
    they never decrease. *)
Theorem export_progress (G : Gfx) (p : params) (lyrics : list lyric) (env : export_env) :
  (0 <= width p)%Z -> (0 <= height p)%Z -> (0 < duration p <= 3600)%Z ->
  launch_ok env = true ->
  (forall i, is_running env i = true) -> (forall i, write_ok env i = true) ->
  let total := (duration p * fps)%Z in
  let pv := progress_values (export_run G p lyrics env) in
  pv = map (progress_pct total)
         (filter (fun i => Z.of_nat i mod 10 =? 0)%Z (seq 0 (Z.to_nat total))) /\
  Forall (fun v => 0 <= v <= 99)%Z pv /\
  Sorted Z.le pv.
Proof.
  intros Hw Hh Hd Hl Hrun Hwr total pv.
  destruct (export_loop_done G p lyrics env total Hw Hh Hrun Hwr
              (seq 0 (Z.to_nat total))) as (evs & Hloop & Hpv & _).
  assert (Hpv' : pv = map (progress_pct total)
         (filter (fun i => Z.of_nat i mod 10 =? 0)%Z (seq 0 (Z.to_nat total)))).
  { unfold pv, export_run. fold total. rewrite Hl. simpl negb. cbv iota. rewrite Hloop.
    rewrite progress_values_app, Hpv. simpl.
    destruct (negb (returncode env =? 0)%Z); apply app_nil_r. }
  assert (Htot : (0 < total)%Z) by (unfold total, fps; lia).
  split; [exact Hpv'|]. rewrite Hpv'. split.
  - apply Forall_forall. intros v Hv.
    apply in_map_iff in Hv as (j & <- & Hj). apply filter_In in Hj as [Hj _].
    apply in_seq in Hj. apply progress_pct_range; unfold total, fps in *; lia.
  - apply StronglySorted_Sorted. apply filter_seq_sorted. exact Htot.
Qed.

(** An export that is not cancelled and whose writes succeed ends by
    closing the pipe, waiting for the encoder, then one signal:
    [finished_signal] when the exit code is 0, otherwise [error_signal];
    no signal comes before. *)
Theorem export_completion (G : Gfx) (p : params) (lyrics : list lyric) (env : export_env) :
  (0 <= width p)%Z -> (0 <= height p)%Z -> launch_ok env = true ->
  (forall i, is_running env i = true) -> (forall i, write_ok env i = true) ->
  exists pre,
    export_run G p lyrics env =
      pre ++ [EvClose; EvWait;
              if (returncode env =? 0)%Z then EvFinished "Export Complete!"
              else EvError "FFmpeg Error: Export failed (Unknown error)."] /\
    no_terminal_signal pre = true.
Proof.
  intros Hw Hh Hl Hrun Hwr.
  destruct (export_loop_done G p lyrics env (duration p * fps) Hw Hh Hrun Hwr
              (seq 0 (Z.to_nat (duration p * fps)))) as (evs & Hloop & _ & Hnt).
  exists evs. split; [|exact Hnt].
  unfold export_run. rewrite Hl. simpl negb. cbv iota. rewrite Hloop.
  destruct (returncode env =? 0)%Z; reflexivity.
Qed.

Lemma export_loop_broken_pipe (G : Gfx) (p : params) (lyrics : list lyric)
  (env : export_env) (total : Z) (j : nat) :
  (0 <= width p)%Z -> (0 <= height p)%Z ->
  (forall i, is_running env i = true) ->
  (forall i, (i < j)%nat -> write_ok env i = true) -> write_ok env j = false ->
  forall n s, (s <= j < s + n)%nat ->
  exists evs,
    export_loop G p lyrics env total (seq s n) = (evs, LoopRaised "[Errno 32] Broken pipe") /\
    length (writes evs) = (j - s)%nat /\
    no_terminal_signal evs = true /\ ~ In EvClose evs /\ ~ In EvWait evs.
Proof.
  intros Hw Hh Hrun Hwr Hj n. induction n as [|n IH]; intros s Hs; [lia|].
  simpl seq. cbn [export_loop]. rewrite Hrun. simpl negb. cbv iota.
  destruct (render_ok G p lyrics (Z.of_nat s # 30) Hw Hh) as (img & Hr & _).
  rewrite Hr.
  destruct (Nat.eq_dec s j) as [->|Hne].
  - rewrite Hj. simpl negb. cbv iota. exists []. simpl.
    split; [reflexivity|]. repeat split; [lia|tauto|tauto].
  - rewrite (Hwr s ltac:(lia)). simpl negb. cbv iota.
    destruct (IH (S s) ltac:(lia)) as (evs & -> & Hlen & Hnt & Hc & Hwt).
    eexists. split; [reflexivity|].
    destruct (Z.of_nat s mod 10 =? 0)%Z; simpl.
    + repeat split; [lia|exact Hnt|..]; intros [H|[H|H]]; try discriminate; tauto.
    + repeat split; [lia|exact Hnt|..]; intros [H|H]; try discriminate; tauto.
Qed.

(** When the write of frame [j] fails, exactly frames [0 .. j-1] are
    written, the run ends with [error_signal] carrying the [OSError]
    text, and the pipe is neither closed nor waited for. *)
Theorem export_broken_pipe (G : Gfx) (p : params) (lyrics : list lyric)
  (env : export_env) (j : nat) :
  (0 <= width p)%Z -> (0 <= height p)%Z -> launch_ok env = true ->
  (j < Z.to_nat (duration p * fps))%nat ->
  (forall i, is_running env i = true) ->
  (forall i, (i < j)%nat -> write_ok env i = true) -> write_ok env j = false ->
  let tr := export_run G p lyrics env in
  (exists pre, tr = pre ++ [EvError "[Errno 32] Broken pipe"] /\
               no_terminal_signal pre = true) /\
  length (writes tr) = j /\ ~ In EvClose tr /\ ~ In EvWait tr.
Proof.
  intros Hw Hh Hl Hjn Hrun Hwr Hj tr.
  destruct (export_loop_broken_pipe G p lyrics env (duration p * fps) j Hw Hh Hrun Hwr Hj
              (Z.to_nat (duration p * fps)) 0 ltac:(lia)) as (evs & Hloop & Hlen & Hnt & Hc & Hwt).
  assert (Htr : tr = evs ++ [EvError "[Errno 32] Broken pipe"]).
  { unfold tr, export_run. rewrite Hl. simpl negb. cbv iota. rewrite Hloop. reflexivity. }
  rewrite Htr. split; [eexists; split; [reflexivity|exact Hnt]|].
  rewrite writes_app. simpl. rewrite app_nil_r, Hlen, Nat.sub_0_r.
  split; [reflexivity|].
  split; intros H; apply in_app_or in H as [H|[H|[]]]; try discriminate; tauto.
Qed.


(** ** [MainWindow.load_lrc]: the duration it sets *)

Lemma parse_output (fs : filesystem) (file_path : string) (lyrics : list lyric) :
  parse fs file_path = Ok lyrics ->
  Sorted time_le lyrics /\ Forall (fun e => 0 <= time e) lyrics.
Proof.
  intros H. unfold parse in H. destruct file_path as [|c s].
  { injection H as <-. split; constructor. }
  destruct (negb (path_exists fs (String c s))).
  { injection H as <-. split; constructor. }
  destruct (open_read fs (String c s)) as [content|msg]; simpl in H; [|discriminate].
  injection H as <-. unfold parse_content, sort_by_time.
  destruct (sort_by_time_gen (collect (readlines content)) [] (Sorted_nil _)) as [H1 H2].
  split; [exact H1|]. apply Forall_forall. intros e He.
  apply (Permutation_in e H2) in He. rewrite app_nil_r in He. apply in_rev in He.
  destruct (collect_from_lines _ e He) as (raw & _ & Hr).
  exact (proj2 (parse_line_wellformed raw e Hr)).
Qed.

Lemma last_In' {A : Type} (l : list A) (d : A) : l <> [] -> In (last l d) l.
Proof.
  induction l as [|x [|y l] IH]; intros Hne; [contradiction|left; reflexivity|].
  right. apply IH. discriminate.
Qed.

Lemma sorted_last_max (l : list lyric) (d : lyric) :
  StronglySorted time_le l -> forall e, In e l -> time e <= time (last l d).
Proof.
  induction 1 as [|x rest Hs IH Hall]; intros e He; [contradiction|].
  destruct rest as [|y rest].
  - destruct He as [<-|[]]. apply Qle_refl.
  - change (last (x :: y :: rest) d) with (last (y :: rest) d).
    destruct He as [<-|He]; [|apply IH; exact He].
    rewrite Forall_forall in Hall. apply Hall. apply last_In'. discriminate.
Qed.

(** After [load_lrc], when every timestamp is at most 3595 s, the duration
    box holds [int(last) + 5]: every line starts more than 4 s before the
    end of the video; the slider range is that duration in hundredths. *)
Theorem load_lrc_duration_covers (fs : filesystem) (file_path : string)
  (lyrics : list lyric) (d smax : Z) :
  parse fs file_path = Ok lyrics ->
  (forall e, In e lyrics -> time e <= 3595) ->
  load_lrc_duration lyrics = Some (d, smax) ->
  smax = (d * 100)%Z /\ forall e, In e lyrics -> time e + 4 < inject_Z d.
Proof.
  intros Hp Hmax Hl. destruct (parse_output fs file_path lyrics Hp) as [Hs Hnn].
  destruct lyrics as [|l0 rest] eqn:El; [discriminate|]. rewrite <- El in *.
  unfold load_lrc_duration in Hl. rewrite El in Hl. rewrite <- El in Hl.
  injection Hl as <- <-.
  assert (Hin : In (last lyrics l0) lyrics) by (apply last_In'; rewrite El; discriminate).
  set (lst := last lyrics l0) in *.
  assert (H0 : 0 <= time lst) by (rewrite Forall_forall in Hnn; apply Hnn; exact Hin).
  assert (Hpy : py_int (time lst) = Qfloor (time lst)).
  { unfold py_int. replace (Qle_bool 0 (time lst)) with true
      by (symmetry; apply Qle_bool_iff; exact H0). reflexivity. }
  rewrite Hpy.
  assert (Hf0 : (0 <= Qfloor (time lst))%Z)
    by (rewrite <- (Qfloor_Z 0); apply Qfloor_resp_le; exact H0).
  assert (Hf1 : (Qfloor (time lst) <= 3595)%Z)
    by (rewrite <- (Qfloor_Z 3595); apply Qfloor_resp_le; apply Hmax; exact Hin).
  unfold spin_set_value.
  replace (Z.max 1 (Z.min 3600 (Qfloor (time lst) + 5))) with (Qfloor (time lst) + 5)%Z by lia.
  split; [reflexivity|]. intros e He.
  pose proof (sorted_last_max lyrics l0 (sorted_strongly _ Hs) e He) as Hle.
  fold lst in Hle. pose proof (Qlt_floor (time lst)) as Hlt.
  rewrite inject_Z_plus in *. change (inject_Z 5) with 5. change (inject_Z 1) with 1 in Hlt.
  lra.
Qed.

(** When a line starts after 3600 s, [spin_dur] clamps the duration to
    3600 while the slider range goes past it, and that line is never the
    active line of any exported frame. *)
Theorem load_lrc_duration_clamped (fs : filesystem) (file_path : string)
  (lyrics : list lyric) (d smax : Z) (k : nat) (e : lyric) :
  parse fs file_path = Ok lyrics ->
  nth_error lyrics k = Some e -> 3600 < time e ->
  load_lrc_duration lyrics = Some (d, smax) ->
  d = 3600%Z /\ (d * 100 < smax)%Z /\
  forall i : nat, (i < Z.to_nat (d * fps))%nat ->
    (get_current_line_index lyrics (Z.of_nat i # 30) < Z.of_nat k)%Z.
Proof.
  intros Hp Hk He Hl. destruct (parse_output fs file_path lyrics Hp) as [Hs Hnn].
  destruct lyrics as [|l0 rest] eqn:El; [discriminate|]. rewrite <- El in *.
  unfold load_lrc_duration in Hl. rewrite El in Hl. rewrite <- El in Hl.
  injection Hl as <- <-.
  assert (Hin : In (last lyrics l0) lyrics) by (apply last_In'; rewrite El; discriminate).
  set (lst := last lyrics l0) in *.
  assert (Hle : time e <= time lst).
  { apply (sorted_last_max lyrics l0 (sorted_strongly _ Hs)). eapply nth_error_In; eauto. }
  assert (H0 : 0 <= time lst) by (rewrite Forall_forall in Hnn; apply Hnn; exact Hin).
  assert (Hpy : py_int (time lst) = Qfloor (time lst)).
  { unfold py_int. replace (Qle_bool 0 (time lst)) with true
      by (symmetry; apply Qle_bool_iff; exact H0). reflexivity. }
  rewrite Hpy.
  assert (Hf : (3600 <= Qfloor (time lst))%Z).
  { rewrite <- (Qfloor_Z 3600). apply Qfloor_resp_le. apply Qlt_le_weak.
    eapply Qlt_le_trans; eauto. }
  unfold spin_set_value.
  replace (Z.max 1 (Z.min 3600 (Qfloor (time lst) + 5))) with 3600%Z by lia.
  split; [reflexivity|]. split; [lia|].
  intros i Hi. apply (current_index_lt lyrics _ k e Hs Hk).
  apply Qlt_trans with 3600; [|exact He].
  unfold fps in Hi. unfold Qlt. simpl. lia.
Qed.

(** ** [MainWindow.update_preview] and [get_ui_params] *)

(** The half-size preview draws the same lines with the same text,
    scale, alpha and blur as the full-size frame at the same time; only
    positions and sizes differ. *)
Theorem preview_same_lines (p : params) (lyrics : list lyric) (t : Q) :
  map ld_look (render_plan (preview_params p) lyrics t) =
  map ld_look (render_plan p lyrics t).
Proof.
  unfold render_plan. change (visible_lines (preview_params p)) with (visible_lines p).
  induction (render_list (get_current_line_index lyrics t)
               (Z.of_nat (length lyrics)) (visible_lines p)) as [|[idx dist] L IH];
    [reflexivity|].
  simpl. rewrite !map_app, IH. f_equal.
  destruct ((idx <? 0)%Z || (Z.of_nat (length lyrics) <=? idx)%Z); [reflexivity|].
  destruct (nth_error lyrics (Z.to_nat idx)); reflexivity.
Qed.



Lemma update_preview_heap (G : Gfx) (h : heap) (sp : pdict) (ui : widgets)
  (lyrics : list lyric) (slider : Z) (h2 : heap) (frame : result image) :
  update_preview G h sp ui lyrics slider = Some (h2, frame) ->
  h2 = fst (get_ui_params h sp ui).
Proof.
  unfold update_preview. destruct lyrics as [|l0 rest]; [discriminate|].
  destruct (get_ui_params h sp ui) as [h' cp].
  intros H. 
  change (Some (h', render G (preview_params (deref h' cp)) (l0 :: rest) (slider # 100)) = Some (h2, frame)) in H.
  injection H as E1 E2. simpl. exact (eq_sym E1).
Qed.

Lemma get_ui_params_heap (h : heap) (sp : pdict) (ui : widgets) :
  shadows (fst (get_ui_params h sp ui)) (d_shadow sp) =
    {| sh_enabled := chk_shadow ui; sh_color := sh_color (shadows h (d_shadow sp));
       sh_x := spin_shadow_off ui; sh_y := spin_shadow_off ui |} /\
  strokes (fst (get_ui_params h sp ui)) (d_stroke sp) =
    {| st_enabled := chk_stroke ui; st_color := st_color (strokes h (d_stroke sp));
       st_width := spin_stroke_w ui |}.
Proof.
  unfold get_ui_params, set_shadow, set_stroke. cbn [fst shadows strokes d_shadow d_stroke].
  rewrite !Nat.eqb_refl. split; reflexivity.
Qed.

(** [get_ui_params] copies [self.params] shallowly: after [start_export]
    has taken its params, a later preview's [get_ui_params] rewrites the
    ['shadow'] and ['stroke'] dicts the export thread reads, while the
    export keeps its own top-level sizes. *)
Theorem preview_shares_effects (G : Gfx) (h0 : heap) (sp : pdict) (ui1 ui2 : widgets)
  (lyrics : list lyric) (slider : Z) (h2 : heap) (frame : result image) :
  let export_params := snd (get_ui_params h0 sp ui1) in
  update_preview G (fst (get_ui_params h0 sp ui1)) sp ui2 lyrics slider = Some (h2, frame) ->
  shadow (deref h2 export_params) =
    {| sh_enabled := chk_shadow ui2; sh_color := sh_color (shadows h0 (d_shadow sp));
       sh_x := spin_shadow_off ui2; sh_y := spin_shadow_off ui2 |} /\
  stroke (deref h2 export_params) =
    {| st_enabled := chk_stroke ui2; st_color := st_color (strokes h0 (d_stroke sp));
       st_width := spin_stroke_w ui2 |} /\
  width (deref h2 export_params) = spin_w ui1 /\
  height (deref h2 export_params) = spin_h ui1 /\
  font_size (deref h2 export_params) = spin_fsize ui1 /\
  visible_lines (deref h2 export_params) = spin_lines ui1.
Proof.
  intros export_params H. apply update_preview_heap in H. subst h2.
  destruct (get_ui_params_heap (fst (get_ui_params h0 sp ui1)) sp ui2) as [E1 E2].
  destruct (get_ui_params_heap h0 sp ui1) as [E3 E4].
  assert (Hs : d_shadow export_params = d_shadow sp) by reflexivity.
  assert (Hk : d_stroke export_params = d_stroke sp) by reflexivity.
  unfold deref at 1 2. cbn [shadow stroke]. rewrite Hs, Hk, E1, E2, E3, E4.
  cbn [sh_color st_color]. split; [reflexivity|]. split; [reflexivity|].
  split; [reflexivity|]. split; [reflexivity|]. split; reflexivity.
Qed.



(** ** [draw_text_with_effects]: size and position of a line's layer *)

Lemma py_int_comp (q1 q2 : Q) : q1 == q2 -> py_int q1 = py_int q2.
Proof.
  intros E. unfold py_int.
  assert (Eb : Qle_bool 0 q1 = Qle_bool 0 q2).
  { destruct (Qle_bool 0 q1) eqn:E1, (Qle_bool 0 q2) eqn:E2; try reflexivity.
    - apply Qle_bool_iff in E1. rewrite E in E1. apply Qle_bool_iff in E1. congruence.
    - apply Qle_bool_iff in E2. rewrite <- E in E2. apply Qle_bool_iff in E2. congruence. }
  rewrite Eb. destruct (Qle_bool 0 q2).
  - apply Qfloor_comp. exact E.
  - f_equal. apply Qfloor_comp. rewrite E. reflexivity.
Qed.

Lemma py_int_Z (z : Z) : py_int (inject_Z z) = z.
Proof.
  unfold py_int. destruct (Qle_bool 0 (inject_Z z)).
  - apply Qfloor_Z.
  - rewrite <- inject_Z_opp, Qfloor_Z. lia.
Qed.

Lemma py_int_ge (q : Q) (z : Z) : (0 <= z)%Z -> inject_Z z <= q -> (z <= py_int q)%Z.
Proof.
  intros Hz Hq. unfold py_int.
  assert (H0 : 0 <= q) by (eapply Qle_trans; [|exact Hq]; change 0 with (inject_Z 0); rewrite <- Zle_Qle; exact Hz).
  replace (Qle_bool 0 q) with true by (symmetry; apply Qle_bool_iff; exact H0).
  rewrite <- (Qfloor_Z z). apply Qfloor_resp_le. exact Hq.
Qed.

Lemma py_max_ge_l (a b : Q) : a <= py_max a b.
Proof. unfold py_max. destruct (Qlt_le_dec a b); [apply Qlt_le_weak; assumption|apply Qle_refl]. Qed.

Lemma py_max_le (a b c : Q) : a <= c -> b <= c -> py_max a b <= c.
Proof. unfold py_max. destruct (Qlt_le_dec a b); auto. Qed.

(** [int(n * scale)] in floats, for a padded size [n] and a scale in
    [0.1 .. 1]. *)
Lemma scaled_size (n : Z) (s : Q) : (40 <= n <= 2 ^ 53)%Z -> 1 # 10 <= s -> s <= 1 ->
  (4 <= py_int (fl (fl (inject_Z n) * s)) <= n)%Z.
Proof.
  intros Hn Hs0 Hs1.
  assert (Hfn : fl (inject_Z n) == inject_Z n) by (apply fl_int; lia).
  assert (H40 : inject_Z 40 <= inject_Z n) by (rewrite <- Zle_Qle; lia).
  assert (H0n : 0 <= inject_Z n) by (change 0 with (inject_Z 0); rewrite <- Zle_Qle; lia).
  assert (Hlo : 4 <= fl (inject_Z n) * s).
  { rewrite Hfn. apply Qle_trans with (inject_Z 40 * (1 # 10)); [unfold Qle; simpl; lia|].
    apply Qmult_le_compat_nonneg; split; [unfold Qle; simpl; lia|exact H40|unfold Qle; simpl; lia|exact Hs0]. }
  assert (Hhi : fl (inject_Z n) * s <= inject_Z n).
  { rewrite Hfn. rewrite <- (Qmult_1_r (inject_Z n)) at 2.
    apply Qmult_le_compat_nonneg; split; [lra|apply Qle_refl|lra|exact Hs1]. }
  assert (F4 : fl 4 == 4) by reflexivity.
  assert (Flo : 4 <= fl (fl (inject_Z n) * s)).
  { rewrite <- F4. apply fl_mono; [discriminate|exact Hlo]. }
  assert (Fhi : fl (fl (inject_Z n) * s) <= inject_Z n).
  { rewrite <- Hfn at 2. apply fl_mono; [lra|exact Hhi]. }
  split.
  - apply py_int_ge; [lia|exact Flo].
  - apply Z.le_trans with (py_int (inject_Z n)); [|rewrite py_int_Z; lia].
    apply py_int_mono_nonneg; [lra|exact Fhi].
Qed.

(** For every line [render] draws, with a nonnegative [scale_decay], the
    layer it pastes is at least 4 pixels and at most the text box plus 20
    px on each side in each direction, in floats: the resize is never
    skipped for an empty size.  It is centred vertically on the line's y;
    horizontally it is centred on [header_x] when centred and ends there
    when right-aligned. *)
Theorem line_layer_geometry (G : Gfx) (p : params) (lyrics : list lyric) (t : Q)
  (ld : line_draw) (f : font G) (a b : Z) (bw bh : N) (layer : image) (dx dy : Z) :
  0 <= scale_decay p ->
  In ld (render_plan p lyrics t) ->
  textbbox G f (ld_text ld) = (a, b, bw, bh) ->
  (Z.of_N bw + 40 <= 2 ^ 53)%Z -> (Z.of_N bh + 40 <= 2 ^ 53)%Z ->
  draw_text_with_effects G (ld_text ld) (header_x p) (ld_y ld) f (font_color p)
    (ld_alpha ld) (ld_scale ld) (ld_blur ld) (align p) (shadow p) (stroke p)
    = DteLayer layer dx dy ->
  (4 <= iw layer <= Z.of_N bw + 40)%Z /\
  (4 <= ih layer <= Z.of_N bh + 40)%Z /\
  dy = (ld_y ld - ih layer / 2)%Z /\
  (align p = "center"%string -> dx = (header_x p - iw layer / 2)%Z) /\
  (align p = "right"%string -> dx = (header_x p - iw layer)%Z).
Proof.
  intros Hdec Hin Hbb Hbw Hbh H.
  assert (Hs : 1 # 10 <= ld_scale ld /\ ld_scale ld <= 1).
  { destruct (render_plan_in p lyrics t ld Hin) as (idx & dist & l & _ & _ & ->).
    unfold line_params. cbn [ld_scale]. split; [apply py_max_ge_l|].
    apply py_max_le; [unfold Qle; simpl; lia|].
    assert (0 <= scale_decay p * inject_Z (py_abs dist)); [|lra].
    apply Qmult_le_0_compat; [exact Hdec|].
    change 0 with (inject_Z 0). rewrite <- Zle_Qle. unfold py_abs. lia. }
  destruct Hs as [Hs0 Hs1].
  set (s := ld_scale ld) in *.
  unfold draw_text_with_effects in H. rewrite Hbb in H.
  destruct (Qle_bool (ld_alpha ld) 5); [discriminate|].
  set (w := Z.of_N bw) in *. set (hh := Z.of_N bh) in *.
  assert (Hw : (0 <= w)%Z) by apply N2Z.is_nonneg.
  assert (Hh : (0 <= hh)%Z) by apply N2Z.is_nonneg.
  replace ((w + 20 * 2 <=? 0)%Z || (hh + 20 * 2 <=? 0)%Z) with false in H by lia.
  unfold image_new in H.
  replace ((w + 20 * 2 <? 0)%Z || (hh + 20 * 2 <? 0)%Z) with false in H by lia.
  (* sizes of the layer before scaling *)
  set (img0 := mkImage (w + 20 * 2) (hh + 20 * 2) (fun _ _ => transparent)) in H.
  set (img1 := if sh_enabled (shadow p) then _ else img0) in H.
  assert (E1 : iw img1 = (w + 40)%Z /\ ih img1 = (hh + 40)%Z)
    by (unfold img1; destruct (sh_enabled (shadow p)); split; reflexivity).
  set (img2 := draw_text_on G img1 _ _ _ _ _ _) in H.
  assert (E2 : iw img2 = (w + 40)%Z /\ ih img2 = (hh + 40)%Z) by exact E1.
  set (img3 := if negb (Qeq_bool s 1) then _ else img2) in H.
  assert (E3 : (4 <= iw img3 <= w + 40)%Z /\ (4 <= ih img3 <= hh + 40)%Z).
  { unfold img3. destruct (Qeq_bool s 1) eqn:Eq; simpl negb; cbv iota.
    - rewrite (proj1 E2), (proj2 E2). lia.
    - pose proof (scaled_size (w + 20 * 2) s ltac:(lia) Hs0 Hs1) as Pw.
      pose proof (scaled_size (hh + 20 * 2) s ltac:(lia) Hs0 Hs1) as Ph.
      replace ((0 <? py_int (fl (fl (inject_Z (w + 20 * 2)) * s)))%Z
               && (0 <? py_int (fl (fl (inject_Z (hh + 20 * 2)) * s)))%Z) with true by lia.
      cbn [resize iw ih]. lia. }
  set (img4 := if Qlt_le_dec 0 (ld_blur ld) then _ else img3) in H.
  assert (E4 : iw img4 = iw img3 /\ ih img4 = ih img3)
    by (unfold img4; destruct (Qlt_le_dec 0 (ld_blur ld)); split; reflexivity).
  injection H as <- Hdx Hdy. rewrite (proj1 E4), (proj2 E4) in *.
  split; [exact (proj1 E3)|]. split; [exact (proj2 E3)|]. split; [symmetry; exact Hdy|].
  split.
  - intros Hal. rewrite <- Hdx. rewrite Hal. reflexivity.
  - intros Hal. rewrite <- Hdx. rewrite Hal. reflexivity.
Qed.



(** ** Parser: texts are trimmed *)

Lemma lstrip_first (s : string) :
  lstrip s = EmptyString \/
  exists c, first_char (lstrip s) = Some c /\ is_space c = false.
Proof.
  induction s as [|c t IH]; simpl; [left; reflexivity|].
  destruct (is_space c) eqn:Ec; [exact IH|]. right. exists c. auto.
Qed.

Lemma last_char_snoc (x : string) (c : ascii) :
  last_char (x ++ String c EmptyString) = Some c.
Proof.
  induction x as [|a x IH]; [reflexivity|].
  simpl. destruct (x ++ String c EmptyString)%string eqn:E.
  - destruct x; discriminate.
  - exact IH.
Qed.

Lemma last_char_snoc_inv (s : string) (c : ascii) :
  last_char s = Some c -> exists x, s = (x ++ String c EmptyString)%string.
Proof.
  induction s as [|a t IH]; [discriminate|].
  destruct t as [|b t'].
  - simpl. intros H. injection H as ->. exists EmptyString. reflexivity.
  - intros H. change (last_char (String b t') = Some c) in H.
    destruct (IH H) as [x Hx]. exists (String a x). rewrite Hx. reflexivity.
Qed.

Lemma last_char_rev (s : string) : last_char (rev_str s EmptyString) = first_char s.
Proof.
  destruct s as [|c t]; [reflexivity|]. simpl.
  rewrite rev_str_acc. apply last_char_snoc.
Qed.

Lemma first_char_rev (s : string) : first_char (rev_str s EmptyString) = last_char s.
Proof.
  rewrite <- (rev_str_involutive s) at 2. symmetry. apply last_char_rev.
Qed.

Lemma lstrip_last (s : string) (c : ascii) :
  last_char s = Some c -> is_space c = false -> last_char (lstrip s) = Some c.
Proof.
  intros H Hc. destruct (last_char_snoc_inv s c H) as [x ->].
  destruct (lstrip_app_nonspace x EmptyString c Hc) as [z ->].
  apply last_char_snoc.
Qed.

Lemma strip_trimmed (s : string) : strip s <> EmptyString -> trimmed (strip s) = true.
Proof.
  unfold strip. set (u := lstrip s). set (v := lstrip (rev_str u EmptyString)).
  intros Hne. unfold trimmed. rewrite first_char_rev, last_char_rev.
  assert (Hv : v <> EmptyString) by (intros E; apply Hne; rewrite E; reflexivity).
  assert (Hu : u <> EmptyString) by (intros E; apply Hv; unfold v; rewrite E; reflexivity).
  destruct (lstrip_first (rev_str u EmptyString)) as [E|(a & Ha & Hsa)]; [contradiction|].
  fold v in Ha.
  destruct (lstrip_first s) as [E'|(b & Hb & Hsb)]; [contradiction|].
  fold u in Hb.
  assert (Hl : last_char v = Some b).
  { unfold v. apply lstrip_last; [|exact Hsb]. rewrite last_char_rev. exact Hb. }
  rewrite Hl, Ha, Hsa, Hsb. reflexivity.
Qed.

Lemma parse_line_trimmed (raw : string) (e : lyric) :
  parse_line raw = Some e -> trimmed (text e) = true.
Proof.
  unfold parse_line. destruct (search (strip raw)) as [m|]; [|discriminate].
  destruct (strip (sub_tags (strip raw))) as [|c t] eqn:Et; [discriminate|].
  intros H. injection H as <-. simpl. rewrite <- Et. apply strip_trimmed.
  rewrite Et. discriminate.
Qed.

Lemma parse_from_lines (fs : filesystem) (file_path : string) (lyrics : list lyric) :
  parse fs file_path = Ok lyrics ->
  Sorted time_le lyrics /\ forall e, In e lyrics -> exists raw, parse_line raw = Some e.
Proof.
  intros H. unfold parse in H. destruct file_path as [|c s].
  { injection H as <-. split; [constructor|intros e []]. }
  destruct (negb (path_exists fs (String c s))).
  { injection H as <-. split; [constructor|intros e []]. }
  destruct (open_read fs (String c s)) as [content|msg]; simpl in H; [|discriminate].
  injection H as <-. unfold parse_content, sort_by_time.
  destruct (sort_by_time_gen (collect (readlines content)) [] (Sorted_nil _)) as [H1 H2].
  split; [exact H1|]. intros e He.
  apply (Permutation_in e H2) in He. rewrite app_nil_r in He. apply in_rev in He.
  destruct (collect_from_lines _ e He) as (raw & _ & Hr). exists raw. exact Hr.
Qed.

(** Every text [LrcParser.parse] returns is nonempty and neither starts
    nor ends with whitespace. *)
Theorem parse_texts_trimmed (fs : filesystem) (file_path : string) (lyrics : list lyric) :
  parse fs file_path = Ok lyrics ->
  forall e, In e lyrics -> trimmed (text e) = true.
Proof.
  intros H e He. destruct (proj2 (parse_from_lines fs file_path lyrics H) e He) as [raw Hr].
  exact (parse_line_trimmed raw e Hr).
Qed.

(** ** Witnesses of the properties above *)

Lemma sample_track_sorted : Sorted time_le sample_track.
Proof. repeat constructor; unfold time_le; simpl; vm_compute; discriminate. Qed.

(** Witness of [render_window]. *)
Lemma render_window_witness :
  (0 <= visible_lines sample_params)%Z /\
  (In 2%Z (map ld_idx (render_plan sample_params sample_track 1)) <->
   (0 <= 2 < Z.of_nat (length sample_track) /\
    Z.abs (2 - get_current_line_index sample_track 1) <= visible_lines sample_params / 2 + 1)%Z).
Proof.
  assert (H : (0 <= visible_lines sample_params)%Z) by (vm_compute; discriminate).
  split; [exact H|exact (render_window sample_params sample_track 1 2 H)].
Defined.

(** Witness of [render_before_first_line]. *)
Lemma render_before_first_line_witness :
  hd_error sample_track = Some first_sample /\ -1 < time first_sample /\
  forall ld, In ld (render_plan sample_params sample_track (-1)) ->
    ld_dist ld = (ld_idx ld + 1)%Z /\ (1 <= ld_dist ld)%Z.
Proof.
  assert (H1 : hd_error sample_track = Some first_sample) by reflexivity.
  assert (H2 : -1 < time first_sample) by reflexivity.
  split; [exact H1|split; [exact H2|]].
  exact (render_before_first_line sample_params sample_track (-1) first_sample H1 H2).
Defined.

(** Witness of [render_constant_between_lines]. *)
Lemma render_constant_between_lines_witness :
  nth_error sample_track 0 = Some first_sample /\
  render block_gfx sample_params sample_track (1 # 2) =
  render block_gfx sample_params sample_track 1.
Proof.
  assert (H1 : nth_error sample_track 0 = Some first_sample) by reflexivity.
  split; [exact H1|].
  apply (render_constant_between_lines block_gfx sample_params sample_track 0 first_sample
           (1 # 2) 1 sample_track_sorted H1).
  - vm_compute. discriminate.
  - vm_compute. discriminate.
  - intros y Hy. simpl in Hy. injection Hy as <-. reflexivity.
Defined.

(** Witness of [current_line_index_monotone]. *)
Lemma current_line_index_monotone_witness :
  Sorted time_le sample_track /\
  (get_current_line_index sample_track 1 <= get_current_line_index sample_track 3)%Z.
Proof.
  split; [exact sample_track_sorted|].
  apply (current_line_index_monotone sample_track 1 3 sample_track_sorted).
  vm_compute. discriminate.
Defined.

(** Witness of [line_params_decay]. *)
Lemma line_params_decay_witness :
  (Z.abs 1 <= Z.abs (-2))%Z /\
  ld_alpha (line_params sample_params "b" 2 (-2)) <= ld_alpha (line_params sample_params "a" 1 1).
Proof.
  assert (Hd : (Z.abs 1 <= Z.abs (-2))%Z) by (vm_compute; discriminate).
  split; [exact Hd|].
  refine (proj1 (proj2 (line_params_decay sample_params "a" "b" 1 2 1 (-2) _ _ _ _ Hd)));
    vm_compute; discriminate.
Defined.

(** Witness of [export_progress]. *)
Lemma export_progress_witness :
  (0 < duration sample_params <= 3600)%Z /\
  Forall (fun v => 0 <= v <= 99)%Z
    (progress_values (export_run block_gfx sample_params sample_track always_running)).
Proof.
  assert (Hd : (0 < duration sample_params <= 3600)%Z) by (split; vm_compute; congruence).
  split; [exact Hd|].
  refine (proj1 (proj2 (export_progress block_gfx sample_params sample_track always_running
                          _ _ Hd eq_refl _ _))).
  - vm_compute. discriminate.
  - vm_compute. discriminate.
  - intros i. reflexivity.
  - intros i. reflexivity.
Defined.

(** Witness of [export_completion]. *)
Lemma export_completion_witness :
  launch_ok always_running = true /\
  exists pre,
    export_run block_gfx sample_params sample_track always_running =
      pre ++ [EvClose; EvWait;
              if (returncode always_running =? 0)%Z then EvFinished "Export Complete!"
              else EvError "FFmpeg Error: Export failed (Unknown error)."] /\
    no_terminal_signal pre = true.
Proof.
  split; [reflexivity|].
  apply (export_completion block_gfx sample_params sample_track always_running).
  - vm_compute. discriminate.
  - vm_compute. discriminate.
  - reflexivity.
  - intros i. reflexivity.
  - intros i. reflexivity.
Defined.

(** Witness of [export_broken_pipe]. *)
Lemma export_broken_pipe_witness :
  write_ok broken_at_3 3 = false /\
  length (writes (export_run block_gfx sample_params sample_track broken_at_3)) = 3%nat.
Proof.
  assert (Hj : write_ok broken_at_3 3 = false) by reflexivity.
  split; [exact Hj|].
  refine (proj1 (proj2 (export_broken_pipe block_gfx sample_params sample_track broken_at_3 3
                          _ _ eq_refl _ _ _ Hj))).
  - vm_compute. discriminate.
  - vm_compute. discriminate.
  - vm_compute. lia.
  - intros i. reflexivity.
  - intros i Hi. simpl. apply Nat.ltb_lt. exact Hi.
Defined.

(** Witness of [load_lrc_duration_covers]. *)
Lemma load_lrc_duration_covers_witness :
  parse one_line_fs "a.lrc" = Ok (parse_content "[00:01.00]x") /\
  forall e, In e (parse_content "[00:01.00]x") -> time e + 4 < inject_Z 6.
Proof.
  assert (Hp : parse one_line_fs "a.lrc" = Ok (parse_content "[00:01.00]x")) by reflexivity.
  split; [exact Hp|].
  refine (proj2 (load_lrc_duration_covers one_line_fs "a.lrc" (parse_content "[00:01.00]x")
                   6 600 Hp _ _)).
  - intros e He. vm_compute in He. destruct He as [<-|[]]. vm_compute. discriminate.
  - vm_compute. reflexivity.
Defined.

(** Witness of [load_lrc_duration_clamped]. *)
Lemma load_lrc_duration_clamped_witness :
  3600 < time long_line /\
  forall i : nat, (i < Z.to_nat (3600 * fps))%nat ->
    (get_current_line_index (parse_content "[61:00.00]x") (Z.of_nat i # 30) < 0)%Z.
Proof.
  assert (He : 3600 < time long_line) by (vm_compute; reflexivity).
  split; [exact He|].
  refine (proj2 (proj2 (load_lrc_duration_clamped long_fs "b.lrc"
                          (parse_content "[61:00.00]x") 3600 366500 0 long_line
                          _ _ He _))).
  - reflexivity.
  - reflexivity.
  - vm_compute. reflexivity.
Defined.

(** Witness of [preview_shares_effects]. *)
Lemma preview_shares_effects_witness :
  let r1 := get_ui_params sample_heap sample_pdict (sample_ui false) in
  let r2 := get_ui_params (fst r1) sample_pdict (sample_ui true) in
  update_preview block_gfx (fst r1) sample_pdict (sample_ui true) sample_track 150 =
    Some (fst r2, render block_gfx (preview_params (deref (fst r2) (snd r2)))
                    sample_track (150 # 100)) /\
  sh_enabled (shadow (deref (fst r2) (snd r1))) = true.
Proof.
  intros r1 r2.
  assert (H : update_preview block_gfx (fst r1) sample_pdict (sample_ui true) sample_track 150 =
    Some (fst r2, render block_gfx (preview_params (deref (fst r2) (snd r2)))
                    sample_track (150 # 100))) by reflexivity.
  split; [exact H|].
  exact (f_equal sh_enabled
           (proj1 (preview_shares_effects block_gfx sample_heap sample_pdict
                     (sample_ui false) (sample_ui true) sample_track 150 _ _ H))).
Defined.

(** Witness of [line_layer_geometry]. *)
Lemma line_layer_geometry_witness :
  In active_sample_line (render_plan sample_params sample_track 2) /\
  (4 <= iw (match active_sample_dte with DteLayer l _ _ => l | _ => mkImage 0 0 (fun _ _ => transparent) end)
     <= Z.of_N 10 + 40)%Z.
Proof.
  assert (Hin : In active_sample_line (render_plan sample_params sample_track 2)).
  { apply nth_In. vm_compute. lia. }
  split; [exact Hin|].
  refine (proj1 (line_layer_geometry block_gfx sample_params sample_track 2 active_sample_line
                   tt 0 0 10 10 _ _ _ _ Hin _ _ _ _)).
  - vm_compute. discriminate.
  - reflexivity.
  - vm_compute. discriminate.
  - vm_compute. discriminate.
  - reflexivity.
Defined.

(** Witness of [parse_texts_trimmed]: two lines separated by a lone
    carriage return, the second ending in a no-break space. *)
Lemma parse_texts_trimmed_witness :
  parse cr_nbsp_fs "a.lrc" = Ok (parse_content cr_nbsp_content) /\
  length (parse_content cr_nbsp_content) = 2%nat /\
  forall e, In e (parse_content cr_nbsp_content) -> trimmed (text e) = true.
Proof.
  assert (Hp : parse cr_nbsp_fs "a.lrc" = Ok (parse_content cr_nbsp_content)) by reflexivity.
  split; [exact Hp|]. split; [vm_compute; reflexivity|].
  exact (parse_texts_trimmed cr_nbsp_fs "a.lrc" _ Hp).
Defined.
